(** * Printipi drivers: A4988 stepper sequencing, RC thermistor timing, linear delta kinematics

    A shallow embedding of [src/drivers/a4988.h], [src/drivers/rcthermistor.h]
    and [src/drivers/lineardeltacoordmap.h], with the switches and macros of
    [src/common/logging.h] that they use.

    Conventions.
    - Pins and the clock are hardware: every operation on them is a function
      on an explicit [World], which also keeps the trace of pin operations.
    - C++ [float] values are modelled by the real numbers [R]: arithmetic is
      exact, there is no rounding, overflow or NaN.  For [bound] and for the
      search of [guessRFromTime], whose properties depend on equalities and
      comparisons between computed floats, the IEEE 754 single precision
      reading of the same code is given as well, in [Module Binary32]. *)

From Stdlib Require Import ZArith List Bool Lia.
From Stdlib Require Import Reals Lra Psatz.
From Stdlib Require Floats.SpecFloat.
From Stdlib Require String Ascii.
From Stdlib Require Import Sorting.Sorted.
From Equations Require Import Equations.
Import ListNotations.

(** ** Pin capability and clock *)

(** Modelled from the spec: the level of a pin ("level: {Low, High}"); its
    declaration, in [drivers/iopin.h], is not among the sources. *)
Inductive IoLevel : Set := IoLow | IoHigh.

(** Modelled from the spec: the direction of a step ("direction: {Forward,
    Backward}"); its declaration, in [event.h], is not among the sources. *)
Inductive StepDirection : Set := StepBackward | StepForward.

Definition IoLevel_eqb (a b : IoLevel) : bool :=
  match a, b with
  | IoLow, IoLow | IoHigh, IoHigh => true
  | _, _ => false
  end.

Definition StepDirection_eqb (a b : StepDirection) : bool :=
  match a, b with
  | StepBackward, StepBackward | StepForward, StepForward => true
  | _, _ => false
  end.

(** Modelled from the spec: the "stable identifier" of a pin, the value of
    [pin.id()]. *)
Definition PinId := Z.

(** Modelled from the spec: a "Timestamp", here a [time_point] of
    [EventClockT], counted in ticks of that clock. *)
Definition time_point := Z.

Inductive PinMode : Set := PinUnconfigured | PinInput | PinOutput.

(** The operations a pin offers, as they appear in the trace. A read is
    logged with the level it returned. *)
Inductive PinOp : Set :=
| OpMakeDigitalInput (p : PinId)
| OpMakeDigitalOutput (p : PinId) (l : IoLevel)
| OpDigitalWrite (p : PinId) (l : IoLevel)
| OpDigitalRead (p : PinId) (l : IoLevel).

(** The hardware as the drivers see it. [samples k] is the level the k-th
    [digitalRead] of the run returns and [clock k] the value of the k-th
    [EventClockT::now()]: both are decided by the outside world. *)
Record World : Type := mkWorld {
  pinMode : PinId -> PinMode;
  pinOut : PinId -> IoLevel;
  samples : nat -> IoLevel;
  reads : nat;
  clock : nat -> time_point;
  nows : nat;
  trace : list PinOp
}.

Definition upd {A : Type} (f : PinId -> A) (p : PinId) (a : A) : PinId -> A :=
  fun q => if Z.eqb q p then a else f q.

(** A computation on the hardware: a state monad over [World]. *)
Definition IO (A : Type) : Type := World -> A * World.

Definition ret {A : Type} (a : A) : IO A := fun w => (a, w).

Definition bind {A B : Type} (m : IO A) (k : A -> IO B) : IO B :=
  fun w => let (a, w') := m w in k a w'.

Declare Scope io_scope.
Delimit Scope io_scope with io.
Notation "x <- m ;; k" := (bind m (fun x => k))
  (at level 61, m at next level, right associativity) : io_scope.
Notation "m ;;; k" := (bind m (fun _ => k))
  (at level 61, right associativity) : io_scope.

(** Modelled from the spec: "makeDigitalInput" of the Pin Capability, whose
    code, in [drivers/iopin.h], is not among the sources. *)
Definition makeDigitalInput (p : PinId) : IO unit :=
  fun w => (tt, mkWorld (upd (pinMode w) p PinInput) (pinOut w) (samples w)
                        (reads w) (clock w) (nows w)
                        (trace w ++ [OpMakeDigitalInput p])).

(** Modelled from the spec: "makeDigitalOutput(initial level)" of the Pin
    Capability. *)
Definition makeDigitalOutput (p : PinId) (l : IoLevel) : IO unit :=
  fun w => (tt, mkWorld (upd (pinMode w) p PinOutput) (upd (pinOut w) p l)
                        (samples w) (reads w) (clock w) (nows w)
                        (trace w ++ [OpMakeDigitalOutput p l])).

(** Modelled from the spec: "digitalWrite" of the Pin Capability. *)
Definition digitalWrite (p : PinId) (l : IoLevel) : IO unit :=
  fun w => (tt, mkWorld (pinMode w) (upd (pinOut w) p l) (samples w)
                        (reads w) (clock w) (nows w)
                        (trace w ++ [OpDigitalWrite p l])).

(** Modelled from the spec: "digitalRead" of the Pin Capability. The level
    comes from the outside world, whatever the mode of the pin. *)
Definition digitalRead (p : PinId) : IO IoLevel :=
  fun w => let l := samples w (reads w) in
           (l, mkWorld (pinMode w) (pinOut w) (samples w) (S (reads w))
                       (clock w) (nows w) (trace w ++ [OpDigitalRead p l])).

(** Modelled from the spec: "now() -> Timestamp" of the Clock, whose code, in
    [drivers/auto/chronoclock.h], is not among the sources. *)
Definition now : IO time_point :=
  fun w => (clock w (nows w),
            mkWorld (pinMode w) (pinOut w) (samples w) (reads w)
                    (clock w) (S (nows w)) (trace w)).

(** A world in which nothing has happened yet: every pin unconfigured and
    low, the sensed line low at the first read and high afterwards, the clock
    showing the number of the call. *)
Definition world0 : World :=
  mkWorld (fun _ => PinUnconfigured) (fun _ => IoLow)
          (fun k => match k with O => IoLow | S _ => IoHigh end) 0
          (fun k => Z.of_nat k) 0 [].

(** ** drivers/a4988.h *)

Module A4988.

(** Modelled from the spec: the LogicalEvent "{ time, axisIndex, direction }";
    the class, in [event.h], is not among the sources. *)
Record Event : Type := mkEvent {
  time : time_point;
  stepperId : Z;
  direction : StepDirection
}.

(** Modelled from the spec: the OutputEvent "{ time, pinId, level }"; the
    class, in [outputevent.h], is not among the sources. *)
Record OutputEvent : Type := mkOutputEvent {
  oe_time : time_point;
  oe_pinId : PinId;
  oe_state : IoLevel
}.

Section Driver.

(** The template parameters, by the identifier of the pin each one names. *)
Variables StepPin DirPin EnablePin : PinId.

(** Ticks of [EventClockT] in one microsecond: the period of the clock is
    declared in [drivers/auto/chronoclock.h]. *)
Variable ticks_per_us : Z.

Definition microseconds (n : Z) : Z := n * ticks_per_us.

Open Scope io_scope.

(** The constructor [A4988()]. *)
Definition init : IO unit :=
  makeDigitalOutput StepPin IoLow ;;;
  makeDigitalOutput DirPin IoLow ;;;
  makeDigitalOutput EnablePin IoHigh.

Definition lockAxis : IO unit := digitalWrite EnablePin IoHigh.

Definition unlockAxis : IO unit := digitalWrite EnablePin IoLow.

Close Scope io_scope.

Open Scope Z_scope.

Definition getEventOutputSequence (evt : Event) : list OutputEvent :=
  [ mkOutputEvent (time evt) DirPin
      (if StepDirection_eqb (direction evt) StepForward then IoHigh else IoLow);
    mkOutputEvent (time evt) StepPin IoLow;
    mkOutputEvent (time evt + microseconds 8) StepPin IoHigh ].

End Driver.

End A4988.

(** ** drivers/rcthermistor.h *)

Module RCThermistor.

(** The data members of the class besides the pin. *)
Record RCThermistor : Type := mkRCThermistor {
  _startReadTime : time_point;
  _endReadTime : time_point
}.

(** An [unsigned] template argument read as a [float]. *)
Definition unsigned_to_float (n : N) : R := IZR (Z.of_N n).

Section Sensor.

(** The template parameters. *)
Variable Pin : PinId.
Variables R_OHMS C_PICO VCC_mV V_TOGGLE_mV : N.
Variables MIN_R MAX_R : N.

Open Scope R_scope.

Definition C : R := unsigned_to_float C_PICO * 1.0e-12.
Definition Vcc : R := unsigned_to_float VCC_mV / 1000.
Definition Va : R := unsigned_to_float V_TOGGLE_mV / 1000.
Definition Ra : R := unsigned_to_float R_OHMS.

Close Scope R_scope.

Open Scope io_scope.

Definition startRead (self : RCThermistor) : IO RCThermistor :=
  makeDigitalInput Pin ;;;
  t <- now ;;
  ret (mkRCThermistor t (_endReadTime self)).

Definition isReady (self : RCThermistor) : IO (bool * RCThermistor) :=
  l <- digitalRead Pin ;;
  if IoLevel_eqb l IoHigh then
    ret (false, self)
  else
    t <- now ;;
    makeDigitalOutput Pin IoHigh ;;;
    ret (true, mkRCThermistor (_startReadTime self) t).

Definition timeSinceStartRead (self : RCThermistor) : IO Z :=
  t <- now ;;
  ret (t - _startReadTime self)%Z.

(** The caller's side of a read: [n] calls of [isReady] in a row, with the
    answers in the order they came ("repeated non-blocking isReady() polls
    driven externally"). *)
Fixpoint poll (n : nat) (self : RCThermistor) : IO (list bool * RCThermistor) :=
  match n with
  | O => ret ([], self)
  | S k =>
      r <- isReady self ;;
      rs <- poll k (snd r) ;;
      ret (fst r :: fst rs, snd rs)
  end.

Close Scope io_scope.

Open Scope R_scope.

(** The duration the circuit model predicts for a thermistor of resistance
    [Rt]: the right-hand side of [float calcT = ...] in [guessRFromTime]. *)
Definition calcT (Rt : R) : R :=
  C * Rt * ln (Rt * Vcc / ((Ra + Rt) * Va)).

(** One pass through the body of the [while] loop of [guessRFromTime], on the
    pair [(lower, upper)]. *)
Definition guess_step (time : R) (b : R * R) : R * R :=
  let (lower, upper) := b in
  let Rt := 0.5 * (upper + lower) in
  if Rlt_dec (calcT Rt) time then (Rt, upper) else (lower, Rt).

(** The loop runs while [upper - lower > 2]. *)
Definition guess_guard (b : R * R) : Prop := snd b - fst b > 2.

Definition guess_guard_dec (b : R * R) : {guess_guard b} + {~ guess_guard b} :=
  Rgt_dec (snd b - fst b) 2.

(** What decreases along the loop: the width of the bracket, rounded up. *)
Definition bracket_measure (b : R * R) : nat := Z.to_nat (up (snd b - fst b)).

Lemma guess_step_width (time : R) (b : R * R) :
  snd (guess_step time b) - fst (guess_step time b) = (snd b - fst b) / 2.
Proof.
  destruct b as [lower upper]. unfold guess_step.
  destruct (Rlt_dec _ time); simpl; lra.
Qed.

Lemma bracket_measure_decreases (time : R) (b : R * R) :
  guess_guard b -> (bracket_measure (guess_step time b) < bracket_measure b)%nat.
Proof.
  unfold guess_guard, bracket_measure. intros Hg.
  rewrite guess_step_width.
  set (w := snd b - fst b) in *.
  destruct (archimed w) as [Hw1 Hw2].
  destruct (archimed (w / 2)) as [Hh1 Hh2].
  assert (Hlt : (up (w / 2) < up w)%Z) by (apply lt_IZR; lra).
  assert (Hpos : (0 < up w)%Z) by (apply lt_IZR; lra).
  lia.
Qed.

(** The [while] loop of [guessRFromTime]: the bracket it ends with. *)
Equations? guess_loop (time : R) (b : R * R) : R * R by wf (bracket_measure b) lt :=
  guess_loop time b with guess_guard_dec b => {
    | left _ => guess_loop time (guess_step time b)
    | right _ => b }.
Proof.
  match goal with
  | g : guess_guard ?b |- _ => exact (bracket_measure_decreases time b g)
  end.
Qed.

Definition guessRFromTime (time : R) : R :=
  let (lower, upper) :=
    guess_loop time (unsigned_to_float MIN_R, unsigned_to_float MAX_R) in
  0.5 * (lower + upper).

(** The pairs [(lower, upper)] the loop holds each time it tests its
    condition, during [guessRFromTime time]. *)
Inductive loop_state (time : R) : R * R -> Prop :=
| loop_enter :
    loop_state time (unsigned_to_float MIN_R, unsigned_to_float MAX_R)
| loop_iterate (b : R * R) :
    loop_state time b -> guess_guard b -> loop_state time (guess_step time b).

(** [Rt] separates the range when, inside the range, the predicted duration
    at a resistance is below the one at [Rt] exactly for the resistances below
    [Rt]. *)
Definition separates (Rt : R) : Prop :=
  forall x, unsigned_to_float MIN_R < x < unsigned_to_float MAX_R -> (calcT x < calcT Rt <-> x < Rt).

(** A capacitor and a threshold voltage that make sense: [C > 0] and
    [0 < Va < Vcc]. *)
Definition circuit_ok : Prop :=
  (0 < C_PICO)%N /\ (0 < V_TOGGLE_mV)%N /\ (V_TOGGLE_mV < VCC_mV)%N.

(** The template parameters of the thermistor itself. *)
Variables T0_C R0_OHMS BETA : N.

(** [mathutil::CtoK] and [mathutil::KtoC], Celsius to Kelvin and back:
    [common/mathutil.h] is not among the sources, the two conversions are
    parameters. *)
Variables CtoK KtoC : R -> R.

(** Ticks of [EventClockT] in one microsecond, as for the stepper driver. *)
Variable ticks_per_us : Z.

Definition T0 : R := CtoK (unsigned_to_float T0_C).
Definition R0 : R := unsigned_to_float R0_OHMS.
Definition B : R := unsigned_to_float BETA.

(** The Kelvin value [K] computed inside [temperatureFromR]. *)
Definition kelvinFromR (Rth : R) : R :=
  1 / (1 / T0 + ln (Rth / R0) / B).

Definition temperatureFromR (Rth : R) : R :=
  let K := kelvinFromR Rth in
  KtoC K.

(** [duration_cast] of a number of ticks to seconds held in a [float]. *)
Definition seconds (ticks : Z) : R :=
  IZR ticks / (IZR ticks_per_us * 1000000).

Definition value (self : RCThermistor) : R :=
  let duration := seconds (_endReadTime self - _startReadTime self) in
  let resistance := guessRFromTime duration in
  let temp := temperatureFromR resistance in
  temp.

Close Scope R_scope.

End Sensor.

End RCThermistor.

(** Celsius to Kelvin and back as a shift by 273.15, for the examples. *)
Definition example_CtoK (c : R) : R := (c + 273.15)%R.
Definition example_KtoC (k : R) : R := (k - 273.15)%R.

(** ** drivers/lineardeltacoordmap.h, in exact arithmetic *)

Module LinearDeltaCoordMap.

Inductive DeltaAxis : Set :=
| DELTA_AXIS_A | DELTA_AXIS_B | DELTA_AXIS_C | DELTA_AXIS_E.

(** [std::array<int, 4>]: one step count per axis. The counts are only ever
    converted to [float], so they are taken in [Z]. *)
Definition array4 : Type := (Z * Z * Z * Z)%type.

Definition at_axis (mech : array4) (axis : DeltaAxis) : Z :=
  let '(a, b, c, e) := mech in
  match axis with
  | DELTA_AXIS_A => a
  | DELTA_AXIS_B => b
  | DELTA_AXIS_C => c
  | DELTA_AXIS_E => e
  end.

(** [std::tuple<float, float, float, float>]: x, y, z, e. *)
Definition xyze_t : Type := (R * R * R * R)%type.

(** The data members of the class; [bedLevel] is left out, none of the
    functions below reads it. *)
Record LinearDeltaCoordMap : Type := mkLinearDeltaCoordMap {
  r : R;
  L : R;
  h : R;
  buildrad : R;
  STEPS_MM : R;
  MM_STEPS : R;
  STEPS_MM_EXT : R;
  MM_STEPS_EXT : R
}.

Open Scope R_scope.

(** The constructor. *)
Definition new (r L h buildrad STEPS_MM STEPS_MM_EXT : R) : LinearDeltaCoordMap :=
  mkLinearDeltaCoordMap r L h buildrad
    STEPS_MM (1 / STEPS_MM) STEPS_MM_EXT (1 / STEPS_MM_EXT).

Definition MIN_Z : R := -2.

(** [std::max] and [std::min] of <algorithm>. *)
Definition std_max (a b : R) : R := if Rlt_dec a b then b else a.
Definition std_min (a b : R) : R := if Rlt_dec b a then b else a.

Definition Reqb (a b : R) : bool := if Req_dec_T a b then true else false.

Definition bound (self : LinearDeltaCoordMap) (xyze : xyze_t) : xyze_t :=
  let '(x0, y0, z0, e0) := xyze in
  let z :=
    std_max MIN_Z
      (std_min ((h self + sqrt (L self * L self - r self * r self)) * STEPS_MM self)
               z0) in
  let x := x0 in
  let y := y0 in
  if Rgt_dec (x * x + y * y) (buildrad self * buildrad self) then
    let ratio := sqrt (buildrad self * buildrad self / (x * x + y * y)) in
    (x * ratio, y * ratio, z, e0)
  else
    (x, y, z, e0).

(** Division as the kinematics needs it: a quotient by zero has no value
    (the [float] code yields an infinity or a NaN there, without any signal). *)
Definition checked_div (a b : R) : option R :=
  if Req_dec_T b 0 then None else Some (a / b).

Declare Scope checked_scope.
Delimit Scope checked_scope with checked.
Notation "x <- m ;; k" :=
  (match m with Some x => k | None => None end)
  (at level 61, m at next level, right associativity) : checked_scope.

Definition xyzeFromMechanical (self : LinearDeltaCoordMap) (mech : array4)
  : option xyze_t :=
  let r := r self in
  let L := L self in
  let e := IZR (at_axis mech DELTA_AXIS_E) * MM_STEPS_EXT self in
  let A := IZR (at_axis mech DELTA_AXIS_A) * MM_STEPS self in
  let B := IZR (at_axis mech DELTA_AXIS_B) * MM_STEPS self in
  let C := IZR (at_axis mech DELTA_AXIS_C) * MM_STEPS self in
  if Reqb A B && Reqb B C then
    Some (0, 0, A - sqrt (L * L - r * r), e)
  else if Reqb B C then
    let ydiv := 2 * (4 * A * A - 8 * A * B + 4 * B * B + 9 * r * r) in
    let ya := 2 * (A - B) * (A - B) * r in
    let yb :=
      4 * sqrt ((A - B) * (A - B) *
                ((- (A - B)) * (A - B) * (A - B) * (A - B)
                 + 4 * (A - B) * (A - B) * L * L
                 + 3 * (-2 * (A - B) * (A - B) + 3 * L * L) * r * r
                 - 9 * r * r * r * r)) in
    (q1 <- checked_div yb ((A - B) * ydiv) ;;
     let com1 := Rabs q1 in
     com2 <- checked_div ya ydiv ;;
     q2 <- checked_div com2 (A - B) ;;
     let z := 0.5 * (A + B - 3 * r * (q2 + com1)) in
     let y := com2 + (A - B) * com1 in
     let x := 0 in
     Some (x, y, z, e))%checked
  else
    let za :=
      (B - C) * r *
      (2 * A * A * A - A * A * (B + C) - A * (B * B + C * C - 3 * r * r)
       + (B + C) * (2 * B * B - 3 * B * C + 2 * C * C + 3 * r * r)) in
    let zb :=
      sqrt 3 *
      sqrt (- ((B - C) * (B - C) * r * r *
               ((A - B) * (A - B) * (A - C) * (A - C) * (B - C) * (B - C)
                + 3 * (A * A + B * B - B * C + C * C - A * (B + C))
                    * (A * A + B * B - B * C + C * C - A * (B + C) - 4 * L * L)
                    * r * r
                + 9 * (2 * (A * A + B * B - B * C + C * C - A * (B + C)) - 3 * L * L)
                    * r * r * r * r
                + 27 * r * r * r * r * r * r))) in
    let zdiv :=
      (B - C) * r * (4 * (A * A + B * B - B * C + C * C - A * (B + C)) + 9 * r * r) in
    (q1 <- checked_div za zdiv ;;
     q2 <- checked_div zb zdiv ;;
     let z := q1 - Rabs q2 in
     x <- checked_div ((B - C) * (B + C - 2 * z)) (2 * sqrt 3 * r) ;;
     q3 <- checked_div (-2 * A * A + B * B + C * C + 4 * A * z - 2 * B * z - 2 * C * z)
                       (6 * r) ;;
     let y := - q3 in
     Some (x, y, z, e))%checked.

(** The tower heights in mm, as [xyzeFromMechanical] computes them. *)
Definition height (self : LinearDeltaCoordMap) (mech : array4) (axis : DeltaAxis) : R :=
  IZR (at_axis mech axis) * MM_STEPS self.

(** A small machine: rails 3 mm from the centre, arms of 5 mm, towers of
    10 mm, a build plate of radius 85 mm, 2 steps per mm on the towers. *)
Definition small_delta : LinearDeltaCoordMap := new 3 5 10 85 2 1.

(** The value of each enumerator of [DeltaAxis]. *)
Definition axis_index (axis : DeltaAxis) : N :=
  match axis with
  | DELTA_AXIS_A => 0
  | DELTA_AXIS_B => 1
  | DELTA_AXIS_C => 2
  | DELTA_AXIS_E => 3
  end.

(** [STEPS_MM(std::size_t axisIdx)] and [MM_STEPS(std::size_t axisIdx)]. *)
Definition STEPS_MM_at (self : LinearDeltaCoordMap) (axisIdx : N) : R :=
  if N.eqb axisIdx (axis_index DELTA_AXIS_E) then STEPS_MM_EXT self else STEPS_MM self.

Definition MM_STEPS_at (self : LinearDeltaCoordMap) (axisIdx : N) : R :=
  if N.eqb axisIdx (axis_index DELTA_AXIS_E) then MM_STEPS_EXT self else MM_STEPS self.

Definition numAxis : N := 4.

Definition getAxisPosition (cur : array4) (axis : DeltaAxis) : Z := at_axis cur axis.

(** The cast [(int)] of a [float]: the fraction is dropped, and a value that
    does not fit a 32-bit [int] has no defined result. *)
Definition truncate (x : R) : Z := if Rle_dec 0 x then Zfloor x else Zceil x.

Definition float_to_int (x : R) : option Z :=
  let n := truncate x in
  if (Z.leb (- 2 ^ 31) n && Z.leb n (2 ^ 31 - 1))%Z then Some n else None.

Definition getHomePosition (self : LinearDeltaCoordMap) (cur : array4) : option array4 :=
  match float_to_int (h self * STEPS_MM self) with
  | Some n => Some (n, n, n, at_axis cur DELTA_AXIS_E)
  | None => None
  end.

(** The layout the header of the file describes: three towers on a circle of
    radius [r], 120 degrees apart, "the leg at (x=0, y=+) is axis A, the leg at
    (x>0, y<0) is axis B, the leg at (x<0, y<0) is axis C"; each carriage is
    linked to the end effector by an arm of length [L]. *)
Definition tower_xy (self : LinearDeltaCoordMap) (axis : DeltaAxis) : R * R :=
  match axis with
  | DELTA_AXIS_A => (0, r self)
  | DELTA_AXIS_B => (sqrt 3 / 2 * r self, - (r self / 2))
  | DELTA_AXIS_C => (- (sqrt 3 / 2 * r self), - (r self / 2))
  | DELTA_AXIS_E => (0, 0)
  end.

(** The square of the distance from the carriage of a tower, at its height,
    to the point (x, y, z). *)
Definition arm_sq (self : LinearDeltaCoordMap) (mech : array4) (axis : DeltaAxis)
  (p : xyze_t) : R :=
  let '(x, y, z, _) := p in
  let (tx, ty) := tower_xy self axis in
  (x - tx) * (x - tx) + (y - ty) * (y - ty)
  + (z - height self mech axis) * (z - height self mech axis).

Close Scope R_scope.

End LinearDeltaCoordMap.

(** ** common/logging.h *)

Module logging.

Import String.

(** The three switches of the namespace, with what the process has written
    so far to its two streams. The text that [printf] makes of its format and
    arguments is taken as one string. *)
Record Logger : Type := mkLogger {
  _info : bool;
  _debug : bool;
  _verbose : bool;
  stdout : list string;
  stderr : list string
}.

Definition printf (text : string) (s : Logger) : Logger :=
  mkLogger (_info s) (_debug s) (_verbose s) (stdout s ++ [text]) (stderr s).

Definition fprintf_stderr (text : string) (s : Logger) : Logger :=
  mkLogger (_info s) (_debug s) (_verbose s) (stdout s) (stderr s ++ [text]).

Definition newline : string := String (Ascii.ascii_of_nat 10) EmptyString.

Section Build.

(** [DO_LOG] is 0 when the build defines [DNO_LOGGING], and 1 otherwise. *)
Variable DO_LOG : bool.

Definition isInfoEnabled (s : Logger) : bool :=
  if DO_LOG then _info s else false.

Definition isDebugEnabled (s : Logger) : bool :=
  if DO_LOG then _debug s else false.

Definition isVerboseEnabled (s : Logger) : bool :=
  if DO_LOG then _verbose s else false.

Definition LOGE (text : string) (s : Logger) : Logger :=
  if DO_LOG then (if isInfoEnabled s then fprintf_stderr text s else s) else s.

Definition LOGW (text : string) (s : Logger) : Logger :=
  if DO_LOG then (if isInfoEnabled s then printf text s else s) else s.

Definition LOG (text : string) (s : Logger) : Logger :=
  if DO_LOG then (if isInfoEnabled s then printf text s else s) else s.

Definition LOGD (text : string) (s : Logger) : Logger :=
  if DO_LOG then (if isDebugEnabled s then printf text s else s) else s.

Definition LOGV (text : string) (s : Logger) : Logger :=
  if DO_LOG then (if isVerboseEnabled s then printf text s else s) else s.

Definition disable (s : Logger) : Logger :=
  if DO_LOG then mkLogger false false false (stdout s) (stderr s) else s.

Definition enableDebug (s : Logger) : Logger :=
  if DO_LOG then
    let s1 := mkLogger (_info s) true (_verbose s) (stdout s) (stderr s) in
    LOG ("debug logging enabled" ++ newline) s1
  else s.

Definition enableVerbose (s : Logger) : Logger :=
  if DO_LOG then
    let s1 := enableDebug s in
    let s2 := mkLogger (_info s1) (_debug s1) true (stdout s1) (stderr s1) in
    LOG ("verbose logging enabled" ++ newline) s2
  else s.

(** One use of the header by the program, and a sequence of them. *)
Inductive Call : Type :=
| CallDisable
| CallEnableDebug
| CallEnableVerbose
| CallLOGE (text : string)
| CallLOGW (text : string)
| CallLOG (text : string)
| CallLOGD (text : string)
| CallLOGV (text : string).

Definition call (c : Call) (s : Logger) : Logger :=
  match c with
  | CallDisable => disable s
  | CallEnableDebug => enableDebug s
  | CallEnableVerbose => enableVerbose s
  | CallLOGE text => LOGE text s
  | CallLOGW text => LOGW text s
  | CallLOG text => LOG text s
  | CallLOGD text => LOGD text s
  | CallLOGV text => LOGV text s
  end.

Fixpoint run (cs : list Call) (s : Logger) : Logger :=
  match cs with
  | [] => s
  | c :: cs' => run cs' (call c s)
  end.

(** The calls that are uses of a logging macro. *)
Definition is_macro (c : Call) : bool :=
  match c with
  | CallDisable | CallEnableDebug | CallEnableVerbose => false
  | _ => true
  end.

End Build.

End logging.

(** ** [bound] and [guessRFromTime] in IEEE 754 arithmetic

    The same functions with [float] read as binary32 and [double] as binary64,
    every operation rounded to nearest, ties to even (the operations of
    [SpecFloat]). *)

Module Binary32.

Import Floats.SpecFloat.

Open Scope Z_scope.

Definition float : Type := spec_float.

(** Conversion of a value to the format with [prec] bits of precision. *)
Definition convert (prec emax : Z) (x : spec_float) : spec_float :=
  match x with
  | S754_finite s m e => binary_normalize prec emax (cond_Zopp s (Zpos m)) e s
  | _ => x
  end.

Definition to_double : float -> spec_float := convert 53 1024.
Definition to_float : spec_float -> float := convert 24 128.

Definition float_of_int (n : Z) : float := binary_normalize 24 128 n 0 false.

Definition fmul : float -> float -> float := SFmul 24 128.
Definition fadd : float -> float -> float := SFadd 24 128.
Definition fsub : float -> float -> float := SFsub 24 128.
Definition fdiv : float -> float -> float := SFdiv 24 128.
Definition fsqrt : float -> float := SFsqrt 24 128.

Definition dmul : spec_float -> spec_float -> spec_float := SFmul 53 1024.
Definition dadd : spec_float -> spec_float -> spec_float := SFadd 53 1024.
Definition ddiv : spec_float -> spec_float -> spec_float := SFdiv 53 1024.
Definition dsqrt : spec_float -> spec_float := SFsqrt 53 1024.

Record LinearDeltaCoordMap : Type := mkLinearDeltaCoordMap {
  r : float;
  L : float;
  h : float;
  buildrad : float;
  STEPS_MM : float;
  MM_STEPS : float;
  STEPS_MM_EXT : float;
  MM_STEPS_EXT : float
}.

(** The constructor; [1.] is a [double]. *)
Definition new (r L h buildrad STEPS_MM STEPS_MM_EXT : float) : LinearDeltaCoordMap :=
  mkLinearDeltaCoordMap r L h buildrad
    STEPS_MM (to_float (ddiv (to_double (float_of_int 1)) (to_double STEPS_MM)))
    STEPS_MM_EXT (to_float (ddiv (to_double (float_of_int 1)) (to_double STEPS_MM_EXT))).

Definition MIN_Z : float := float_of_int (-2).

Definition std_max (a b : float) : float := if SFltb a b then b else a.
Definition std_min (a b : float) : float := if SFltb b a then b else a.

(** [bound]. The [sqrt] of the z limit is the [double] function of <math.h>
    (hence the cast to [float] in the source); [std::sqrt] of a [float] is
    the single precision one. *)
Definition bound (self : LinearDeltaCoordMap) (xyze : float * float * float * float)
  : float * float * float * float :=
  let '(x0, y0, z0, e0) := xyze in
  let z :=
    std_max MIN_Z
      (std_min
         (to_float
            (dmul (dadd (to_double (h self))
                        (dsqrt (to_double (fsub (fmul (L self) (L self))
                                                (fmul (r self) (r self))))))
                  (to_double (STEPS_MM self))))
         z0) in
  let x := x0 in
  let y := y0 in
  if SFltb (fmul (buildrad self) (buildrad self)) (fadd (fmul x x) (fmul y y)) then
    let ratio :=
      fsqrt (fdiv (fmul (buildrad self) (buildrad self)) (fadd (fmul x x) (fmul y y))) in
    (fmul x ratio, fmul y ratio, z, e0)
  else
    (x, y, z, e0).

(** *** drivers/rcthermistor.h, [guessRFromTime] in IEEE 754 arithmetic *)

(** The [double] literals [1.0e-12], [1000.] and [0.5]. *)
Definition d_1e_12 : spec_float := S754_finite false 4951760157141521 (-92).
Definition d_1000 : spec_float := binary_normalize 53 1024 1000 0 false.
Definition d_half : spec_float := binary_normalize 53 1024 1 (-1) false.

(** An [unsigned] template parameter converted to [double] and to [float]. *)
Definition double_of_unsigned (n : N) : spec_float :=
  binary_normalize 53 1024 (Z.of_N n) 0 false.
Definition float_of_unsigned (n : N) : float := float_of_int (Z.of_N n).

(** [while (upper-lower > 2)], on the pair (lower, upper). *)
Definition guess_guard (b : float * float) : bool :=
  SFltb (float_of_int 2) (fsub (snd b) (fst b)).

(** [0.5*(a+b)] stored in a [float]: the sum is a [float], the product with
    the [double] 0.5 is rounded when it is stored. *)
Definition half_sum (a b : float) : float :=
  to_float (dmul d_half (to_double (fadd a b))).

Section Sensor.

(** [log] of <math.h>, on [double], as [sqrt] in [bound]: the library is not
    among the sources, the function is a parameter. *)
Variable log : spec_float -> spec_float.

Variables R_OHMS C_PICO VCC_mV V_TOGGLE_mV : N.
Variables MIN_R MAX_R : N.

Definition C : float := to_float (dmul (double_of_unsigned C_PICO) d_1e_12).
Definition Vcc : float := to_float (ddiv (double_of_unsigned VCC_mV) d_1000).
Definition Va : float := to_float (ddiv (double_of_unsigned V_TOGGLE_mV) d_1000).
Definition Ra : float := float_of_unsigned R_OHMS.

(** [float calcT = C*Rt*log(Rt*Vcc / ((Ra+Rt)*Va))]. *)
Definition calcT (Rt : float) : float :=
  to_float
    (dmul (to_double (fmul C Rt))
          (log (to_double (fdiv (fmul Rt Vcc) (fmul (fadd Ra Rt) Va))))).

(** One pass through the body of the loop. *)
Definition guess_step (time : float) (b : float * float) : float * float :=
  let (lower, upper) := b in
  let Rt := half_sum upper lower in
  let calcT := calcT Rt in
  if SFltb calcT time then (Rt, upper) else (lower, Rt).

(** The loop, run for at most [fuel] passes: [None] when it is still running
    after them. *)
Fixpoint guess_loop (fuel : nat) (time : float) (b : float * float)
  : option (float * float) :=
  if guess_guard b then
    match fuel with
    | O => None
    | S fuel' => guess_loop fuel' time (guess_step time b)
    end
  else Some b.

Definition guessRFromTime (fuel : nat) (time : float) : option float :=
  let lower := float_of_unsigned MIN_R in
  let upper := float_of_unsigned MAX_R in
  match guess_loop fuel time (lower, upper) with
  | Some (lower, upper) => Some (half_sum lower upper)
  | None => None
  end.

End Sensor.

Close Scope Z_scope.

End Binary32.

(** * Properties *)

(** ** A4988 *)

Lemma upd_same {A : Type} (f : PinId -> A) (p : PinId) (a : A) :
  upd f p a p = a.
Proof. unfold upd. rewrite Z.eqb_refl. reflexivity. Qed.

Lemma upd_other {A : Type} (f : PinId -> A) (p q : PinId) (a : A) :
  q <> p -> upd f p a q = f q.
Proof.
  intros Hne. unfold upd. destruct (Z.eqb_spec q p); [contradiction | reflexivity].
Qed.

(** C1. For every event at time T the driver returns exactly three output
    events, in this order: the direction pin at T (high for a forward step,
    low for a backward one), the step pin low at T, the step pin high 8
    microseconds after T. *)
Theorem getEventOutputSequence_contract :
  forall (StepPin DirPin : PinId) (ticks_per_us : Z) (evt : A4988.Event),
    A4988.getEventOutputSequence StepPin DirPin ticks_per_us evt =
      [ A4988.mkOutputEvent (A4988.time evt) DirPin
          (match A4988.direction evt with
           | StepForward => IoHigh
           | StepBackward => IoLow
           end);
        A4988.mkOutputEvent (A4988.time evt) StepPin IoLow;
        A4988.mkOutputEvent (A4988.time evt + A4988.microseconds ticks_per_us 8)%Z
          StepPin IoHigh ].
Proof.
  intros StepPin DirPin ticks evt. unfold A4988.getEventOutputSequence.
  destruct (A4988.direction evt); reflexivity.
Qed.

(** The two directions give sequences that differ in the level of the first
    entry only. *)
Lemma getEventOutputSequence_backward_tail :
  forall (StepPin DirPin : PinId) (ticks_per_us : Z) (T : time_point) (axis : Z),
    tl (A4988.getEventOutputSequence StepPin DirPin ticks_per_us
          (A4988.mkEvent T axis StepBackward)) =
    tl (A4988.getEventOutputSequence StepPin DirPin ticks_per_us
          (A4988.mkEvent T axis StepForward)).
Proof. reflexivity. Qed.

(** What one [digitalWrite] leaves behind. *)
Lemma digitalWrite_effect (p : PinId) (l : IoLevel) (w : World) :
  let w' := snd (digitalWrite p l w) in
  trace w' = trace w ++ [OpDigitalWrite p l] /\
  pinOut w' p = l /\
  pinMode w' = pinMode w /\
  (forall q, q <> p -> pinOut w' q = pinOut w q) /\
  reads w' = reads w /\ nows w' = nows w.
Proof.
  simpl. repeat split; auto using upd_same.
  intros q Hq. apply upd_other. exact Hq.
Qed.

(** C10. [lockAxis] is one immediate write of high to the enable pin and
    [unlockAxis] one immediate write of low; the step pin and the direction
    pin keep their mode and level; both return nothing, so no timed output
    event comes out of them. *)
Theorem lockAxis_unlockAxis_frame :
  forall (StepPin DirPin EnablePin : PinId) (w : World),
    StepPin <> EnablePin ->
    DirPin <> EnablePin ->
    let locked := A4988.lockAxis EnablePin w in
    let unlocked := A4988.unlockAxis EnablePin w in
    (fst locked = tt /\
     trace (snd locked) = trace w ++ [OpDigitalWrite EnablePin IoHigh] /\
     pinOut (snd locked) EnablePin = IoHigh /\
     pinOut (snd locked) StepPin = pinOut w StepPin /\
     pinOut (snd locked) DirPin = pinOut w DirPin /\
     pinMode (snd locked) = pinMode w) /\
    (fst unlocked = tt /\
     trace (snd unlocked) = trace w ++ [OpDigitalWrite EnablePin IoLow] /\
     pinOut (snd unlocked) EnablePin = IoLow /\
     pinOut (snd unlocked) StepPin = pinOut w StepPin /\
     pinOut (snd unlocked) DirPin = pinOut w DirPin /\
     pinMode (snd unlocked) = pinMode w).
Proof.
  intros StepPin DirPin EnablePin w Hs Hd locked unlocked.
  subst locked unlocked. unfold A4988.lockAxis, A4988.unlockAxis.
  split.
  - destruct (digitalWrite_effect EnablePin IoHigh w) as (Ht & Ho & Hm & Hf & _).
    repeat split; auto.
  - destruct (digitalWrite_effect EnablePin IoLow w) as (Ht & Ho & Hm & Hf & _).
    repeat split; auto.
Qed.

Lemma lockAxis_unlockAxis_frame_witness :
  trace (snd (A4988.lockAxis 3%Z world0)) = [OpDigitalWrite 3%Z IoHigh] /\
  trace (snd (A4988.unlockAxis 3%Z world0)) = [OpDigitalWrite 3%Z IoLow] /\
  pinOut (snd (A4988.lockAxis 3%Z world0)) 1%Z = IoLow /\
  pinOut (snd (A4988.unlockAxis 3%Z world0)) 2%Z = IoLow.
Proof.
  assert (H1 : (1 <> 3)%Z) by lia.
  assert (H2 : (2 <> 3)%Z) by lia.
  destruct (lockAxis_unlockAxis_frame 1%Z 2%Z 3%Z world0 H1 H2)
    as [(_ & Ht & _ & Hs & _) (_ & Ht' & _ & _ & Hd & _)].
  repeat split; assumption.
Defined.

(** ** RCThermistor: the read cycle *)

(** One call takes one sample and answers by it. *)
Lemma isReady_step (Pin : PinId) (self : RCThermistor.RCThermistor) (w : World) :
  let '(ready, _, w') := RCThermistor.isReady Pin self w in
  reads w' = S (reads w) /\ samples w' = samples w /\
  ready = negb (IoLevel_eqb (samples w (reads w)) IoHigh).
Proof.
  unfold RCThermistor.isReady, bind, digitalRead.
  destruct (samples w (reads w)); simpl; repeat split; reflexivity.
Qed.

(** C3, as the code has it. Every call of [isReady] samples the pin, once.
    When the sample is high the call returns false and changes nothing else.
    When it is low the call records the end time, makes the pin an output
    driven high and returns true. The object keeps no mark of a finished
    read: what a later call returns depends on the sample that call takes. *)
Theorem isReady_samples_on_every_call :
  forall (Pin : PinId) (self : RCThermistor.RCThermistor) (w : World),
    let '(ready, self', w') := RCThermistor.isReady Pin self w in
    reads w' = S (reads w) /\
    match samples w (reads w) with
    | IoHigh =>
        ready = false /\ self' = self /\
        trace w' = trace w ++ [OpDigitalRead Pin IoHigh] /\
        pinMode w' = pinMode w /\ pinOut w' = pinOut w /\ nows w' = nows w
    | IoLow =>
        ready = true /\
        RCThermistor._endReadTime self' = clock w (nows w) /\
        RCThermistor._startReadTime self' = RCThermistor._startReadTime self /\
        trace w' = trace w ++ [OpDigitalRead Pin IoLow; OpMakeDigitalOutput Pin IoHigh] /\
        pinMode w' Pin = PinOutput /\ pinOut w' Pin = IoHigh
    end.
Proof.
  intros Pin self w.
  unfold RCThermistor.isReady, bind, digitalRead.
  destruct (samples w (reads w)) eqn:Hs; simpl.
  - rewrite <- app_assoc. simpl. rewrite !upd_same. repeat split; reflexivity.
  - repeat split; reflexivity.
Qed.

(** Polling: the k-th call answers true exactly when the k-th sample is low,
    before and after the first such answer, and [n] calls take [n] samples. *)
Lemma poll_follows_samples :
  forall (Pin : PinId) (n : nat) (self : RCThermistor.RCThermistor) (w : World),
    fst (fst (RCThermistor.poll Pin n self w)) =
      map (fun k => negb (IoLevel_eqb (samples w (reads w + k)) IoHigh)) (seq 0 n) /\
    reads (snd (RCThermistor.poll Pin n self w)) = (reads w + n)%nat /\
    samples (snd (RCThermistor.poll Pin n self w)) = samples w.
Proof.
  intros Pin n. induction n as [| n IH]; intros self w.
  - simpl. repeat split. lia.
  - cbn [RCThermistor.poll]. unfold bind.
    pose proof (isReady_step Pin self w) as Hstep.
    destruct (RCThermistor.isReady Pin self w) as [[ready self'] w'].
    destruct Hstep as (Hr & Hs & Hb). cbn [fst snd].
    specialize (IH self' w').
    destruct (RCThermistor.poll Pin n self' w') as [[rs self''] w''].
    unfold ret. cbn [fst snd] in *. destruct IH as (IH1 & IH2 & IH3).
    repeat split.
    + cbn [seq map]. rewrite Nat.add_0_r, Hb. f_equal.
      rewrite IH1, <- seq_shift, map_map.
      apply map_ext. intros k. rewrite Hr, Hs. do 3 f_equal. lia.
    + rewrite IH2, Hr. lia.
    + rewrite IH3. exact Hs.
Qed.

(** C3 as stated fails: after a read has completed (first call, sample low,
    result true) the next call samples the pin again and, the line being high,
    returns false. *)
Lemma isReady_after_completion_samples_again :
  let self0 := RCThermistor.mkRCThermistor 0%Z 0%Z in
  let '(ready1, self1, w1) := RCThermistor.isReady 4%Z self0 world0 in
  let '(ready2, self2, w2) := RCThermistor.isReady 4%Z self1 w1 in
  ready1 = true /\ ready2 = false /\
  reads w1 = 1%nat /\ reads w2 = 2%nat /\
  trace w2 = trace w1 ++ [OpDigitalRead 4%Z IoHigh].
Proof. vm_compute. repeat split; reflexivity. Qed.

(** ** LinearDeltaCoordMap: bounding *)

(** Case analysis on every comparison of reals that is still undecided. *)
Ltac case_Rlt :=
  repeat match goal with
    | |- context [Rlt_dec ?a ?b] => destruct (Rlt_dec a b)
    | H : context [Rlt_dec ?a ?b] |- _ => destruct (Rlt_dec a b)
    end.

Section Bounding.

Import LinearDeltaCoordMap.
Open Scope R_scope.

Lemma sqrt_25_9 : sqrt (5 * 5 - 3 * 3) = 4.
Proof.
  replace (5 * 5 - 3 * 3) with (4 * 4) by lra.
  apply sqrt_square. lra.
Qed.

(** The z of [bound] is the input z clamped between [MIN_Z] and a limit that
    is the tower reach [h + sqrt(L^2 - r^2)] multiplied by the steps per mm. *)
Lemma bound_z_clamp (self : LinearDeltaCoordMap) (x y z e : R) :
  let limit := (h self + sqrt (L self * L self - r self * r self)) * STEPS_MM self in
  let '(_, _, z', _) := bound self (x, y, z, e) in
  MIN_Z <= limit -> MIN_Z <= z' <= limit /\ (MIN_Z <= z <= limit -> z' = z).
Proof.
  intros limit. unfold bound, std_max, std_min. fold limit.
  destruct (Rgt_dec _ _); intros Hl; case_Rlt; (split; [| intros Hz]); lra.
Qed.

(** C2 at a concrete input: on [small_delta] the reach is 14 mm, and a
    position 20 mm high passes [bound] with its z unchanged. *)
Lemma bound_z_exceeds_reach :
  h small_delta + sqrt (L small_delta * L small_delta - r small_delta * r small_delta) = 14 /\
  bound small_delta (0, 0, 20, 0) = (0, 0, 20, 0).
Proof.
  unfold small_delta, new, bound, std_max, std_min, MIN_Z. cbn [h L r STEPS_MM buildrad].
  rewrite sqrt_25_9. split; [lra |].
  destruct (Rgt_dec _ _); [lra |].
  case_Rlt; try lra; reflexivity.
Qed.

Lemma clamp_idempotent (m u z : R) :
  std_max m (std_min u (std_max m (std_min u z))) = std_max m (std_min u z).
Proof.
  unfold std_max, std_min. case_Rlt; lra.
Qed.

(** Inside the branch that rescales, the quotient is by a positive number. *)
Lemma bound_divisor_positive (b x y : R) :
  x * x + y * y > b * b -> 0 < x * x + y * y.
Proof. intros H. nra. Qed.

Lemma rescaled_on_boundary (b x y : R) :
  x * x + y * y > b * b ->
  let ratio := sqrt (b * b / (x * x + y * y)) in
  (x * ratio) * (x * ratio) + (y * ratio) * (y * ratio) = b * b.
Proof.
  intros Hgt ratio.
  pose proof (bound_divisor_positive b x y Hgt) as Hpos.
  assert (Hq : 0 <= b * b / (x * x + y * y)).
  { apply Rmult_le_pos; [nra |]. left. apply Rinv_0_lt_compat. exact Hpos. }
  assert (Hr : ratio * ratio = b * b / (x * x + y * y)) by (apply sqrt_sqrt; exact Hq).
  replace (x * ratio * (x * ratio) + y * ratio * (y * ratio))
    with ((x * x + y * y) * (ratio * ratio)) by ring.
  rewrite Hr. field. lra.
Qed.

(** C6. When [x^2 + y^2] exceeds [buildrad^2], [bound] multiplies x and y by
    the same nonnegative factor [sqrt(buildrad^2 / (x^2 + y^2))], which puts
    the point on the circle of radius [buildrad]; otherwise x and y are
    returned as they are; e is returned as it is in both cases. *)
Theorem bound_radial_rescale :
  forall (self : LinearDeltaCoordMap) (x y z e : R),
    let '(x', y', _, e') := bound self (x, y, z, e) in
    let ratio := sqrt (buildrad self * buildrad self / (x * x + y * y)) in
    (x * x + y * y > buildrad self * buildrad self ->
       x' = x * ratio /\ y' = y * ratio /\ 0 <= ratio /\
       x' * x' + y' * y' = buildrad self * buildrad self) /\
    (x * x + y * y <= buildrad self * buildrad self -> x' = x /\ y' = y) /\
    e' = e.
Proof.
  intros self x y z e. unfold bound.
  destruct (Rgt_dec _ _) as [Hgt | Hle].
  - repeat split; try reflexivity.
    + apply sqrt_pos.
    + apply (rescaled_on_boundary (buildrad self) x y). exact Hgt.
    + lra.
    + lra.
  - repeat split; try reflexivity; intros; lra.
Qed.

(** The example of the specification: with a build radius of 85 mm the point
    (100, 0, 0, 0) is brought to (85, 0, 0, 0). *)
Lemma bound_radial_rescale_witness :
  bound small_delta (100, 0, 0, 0) = (85, 0, 0, 0).
Proof.
  pose proof (bound_radial_rescale small_delta 100 0 0 0) as H.
  pose proof (bound_z_clamp small_delta 100 0 0 0) as Hz.
  destruct (bound small_delta (100, 0, 0, 0)) as [[[x' y'] z'] e'].
  cbv zeta in H, Hz.
  unfold small_delta, new, MIN_Z in H, Hz. cbn [h L r STEPS_MM buildrad] in H, Hz.
  rewrite sqrt_25_9 in Hz.
  destruct H as (Hout & _ & He).
  destruct Hout as (Hx & Hy & Hr & Hc); [lra |].
  destruct Hz as (_ & Hz); [lra |].
  assert (Hx' : 0 <= x') by (rewrite Hx; apply Rmult_le_pos; [lra | exact Hr]).
  assert (Hy' : y' = 0) by (rewrite Hy; ring).
  assert (Hx85 : x' = 85) by (rewrite Hy' in Hc; nra).
  assert (Hz0 : z' = 0) by (apply Hz; lra).
  clear - Hx85 Hy' Hz0 He. rewrite Hx85, Hy', Hz0, He. reflexivity.
Defined.

(** C7 in exact arithmetic: bounding a bounded position changes nothing. *)
Theorem bound_idempotent_exact :
  forall (self : LinearDeltaCoordMap) (xyze : xyze_t),
    bound self (bound self xyze) = bound self xyze.
Proof.
  intros self [[[x y] z] e]. unfold bound.
  destruct (Rgt_dec (x * x + y * y) _) as [Hgt | Hle].
  - pose proof (rescaled_on_boundary (buildrad self) x y Hgt) as Hon.
    cbv zeta in Hon.
    destruct (Rgt_dec _ _) as [Hgt' | _]; [lra |].
    rewrite clamp_idempotent. reflexivity.
  - destruct (Rgt_dec _ _) as [Hgt' | _]; [contradiction |].
    rewrite clamp_idempotent. reflexivity.
Qed.

Close Scope R_scope.

End Bounding.

(** C7 as stated, on the machine's numbers: in single precision, with a build
    radius of 85, the position (103, 0, 0, 0) is bounded to
    (85.00000762939453125, 0, 0, 0), and bounding that gives (85, 0, 0, 0). *)
Lemma bound_not_idempotent_binary32 :
  let f := Binary32.float_of_int in
  let self := Binary32.new (f 3%Z) (f 5%Z) (f 10%Z) (f 85%Z) (f 2%Z) (f 1%Z) in
  let p := (f 103%Z, f 0%Z, f 0%Z, f 0%Z) in
  Binary32.bound self p =
    (SpecFloat.S754_finite false 11141121 (-17), f 0%Z, f 0%Z, f 0%Z) /\
  Binary32.bound self (Binary32.bound self p) = (f 85%Z, f 0%Z, f 0%Z, f 0%Z) /\
  Binary32.bound self (Binary32.bound self p) <> Binary32.bound self p.
Proof.
  vm_compute. repeat split; try reflexivity. discriminate.
Qed.

(** The position 20 mm high passes unchanged on the machine's numbers as
    well. *)
Lemma bound_z_exceeds_reach_binary32 :
  let f := Binary32.float_of_int in
  let self := Binary32.new (f 3%Z) (f 5%Z) (f 10%Z) (f 85%Z) (f 2%Z) (f 1%Z) in
  Binary32.bound self (f 0%Z, f 0%Z, f 20%Z, f 0%Z) = (f 0%Z, f 0%Z, f 20%Z, f 0%Z).
Proof. vm_compute. reflexivity. Qed.

(** The example of the specification holds on the machine's numbers too. *)
Lemma bound_example_binary32 :
  let f := Binary32.float_of_int in
  let self := Binary32.new (f 3%Z) (f 5%Z) (f 10%Z) (f 85%Z) (f 2%Z) (f 1%Z) in
  Binary32.bound self (f 100%Z, f 0%Z, f 0%Z, f 0%Z) = (f 85%Z, f 0%Z, f 0%Z, f 0%Z).
Proof. vm_compute. reflexivity. Qed.

(** C6 as stated, on the machine's numbers: in single precision the rescaled
    point need not be on the boundary. With a build radius of 85 the position
    (103, 0, 0, 0) is brought to x = 85.00000762939453125, which the test of
    [bound] itself still finds outside the plate; and at x = 2^127, where
    [x*x] overflows, the factor is 0 and the position is brought to the
    centre. *)
Lemma bound_rescale_off_boundary_binary32 :
  let f := Binary32.float_of_int in
  let self := Binary32.new (f 3%Z) (f 5%Z) (f 10%Z) (f 85%Z) (f 2%Z) (f 1%Z) in
  let b2 := Binary32.fmul (Binary32.buildrad self) (Binary32.buildrad self) in
  let norm2 x y := Binary32.fadd (Binary32.fmul x x) (Binary32.fmul y y) in
  (let '(x', y', _, _) := Binary32.bound self (f 103%Z, f 0%Z, f 0%Z, f 0%Z) in
   Binary32.buildrad self = SpecFloat.S754_finite false 11141120 (-17) /\
   x' = SpecFloat.S754_finite false 11141121 (-17) /\ y' = f 0%Z /\
   SpecFloat.SFltb b2 (norm2 x' y') = true) /\
  (let '(x', y', _, _) :=
     Binary32.bound self (SpecFloat.S754_finite false 8388608 104, f 0%Z, f 0%Z, f 0%Z) in
   x' = f 0%Z /\ y' = f 0%Z /\ SpecFloat.SFltb (norm2 x' y') b2 = true).
Proof.
  vm_compute. repeat split; reflexivity.
Qed.

(** ** LinearDeltaCoordMap: from tower heights to a position *)

Section Kinematics.

Import LinearDeltaCoordMap.
Open Scope R_scope.

Lemma Reqb_true (a b : R) : a = b -> Reqb a b = true.
Proof. intros H. unfold Reqb. destruct (Req_dec_T a b); [reflexivity | contradiction]. Qed.

Lemma Reqb_false (a b : R) : a <> b -> Reqb a b = false.
Proof. intros H. unfold Reqb. destruct (Req_dec_T a b); [contradiction | reflexivity]. Qed.

Lemma Reqb_eq (a b : R) : Reqb a b = true -> a = b.
Proof. unfold Reqb. destruct (Req_dec_T a b); [trivial | discriminate]. Qed.

Lemma Reqb_neq (a b : R) : Reqb a b = false -> a <> b.
Proof. unfold Reqb. destruct (Req_dec_T a b); [discriminate | trivial]. Qed.

Lemma checked_div_some (a b : R) : b <> 0 -> checked_div a b = Some (a / b).
Proof.
  intros H. unfold checked_div. destruct (Req_dec_T b 0); [contradiction | reflexivity].
Qed.

Lemma checked_div_none (a b : R) : b = 0 -> checked_div a b = None.
Proof.
  intros H. unfold checked_div. destruct (Req_dec_T b 0); [reflexivity | contradiction].
Qed.


(** C4. When the three tower heights are equal, the position is on the axis
    of the machine: x = 0, y = 0 and z = A - sqrt(L^2 - r^2). *)
Theorem xyzeFromMechanical_equal_heights :
  forall (self : LinearDeltaCoordMap) (mech : array4),
    height self mech DELTA_AXIS_A = height self mech DELTA_AXIS_B ->
    height self mech DELTA_AXIS_B = height self mech DELTA_AXIS_C ->
    xyzeFromMechanical self mech =
      Some (0, 0,
            height self mech DELTA_AXIS_A - sqrt (L self * L self - r self * r self),
            IZR (at_axis mech DELTA_AXIS_E) * MM_STEPS_EXT self).
Proof.
  intros self mech HAB HBC. unfold height in *. unfold xyzeFromMechanical.
  cbv zeta. rewrite (Reqb_true _ _ HAB), (Reqb_true _ _ HBC). reflexivity.
Qed.

(** All towers at 100 steps, that is 50 mm: the effector is 4 mm below, at
    z = 46. *)
Lemma xyzeFromMechanical_equal_heights_witness :
  xyzeFromMechanical small_delta (100, 100, 100, 7)%Z = Some (0, 0, 46, 7).
Proof.
  rewrite (xyzeFromMechanical_equal_heights small_delta (100, 100, 100, 7)%Z
             eq_refl eq_refl).
  unfold height, small_delta, new. cbn [at_axis L r MM_STEPS MM_STEPS_EXT].
  rewrite sqrt_25_9. do 4 f_equal; lra.
Defined.

(** The quantity [A^2 + B^2 - B C + C^2 - A (B + C)] of the general branch. *)
Lemma spread_positive (A B C : R) :
  B <> C -> 0 < A * A + B * B - B * C + C * C - A * (B + C).
Proof.
  intros H.
  assert (H1 : 0 < (B - C) * (B - C)) by (apply Rsqr_pos_lt; lra).
  assert (H2 : 0 <= (A - B) * (A - B)) by apply Rle_0_sqr.
  assert (H3 : 0 <= (A - C) * (A - C)) by apply Rle_0_sqr.
  replace (A * A + B * B - B * C + C * C - A * (B + C))
    with (((B - C) * (B - C) + (A - B) * (A - B) + (A - C) * (A - C)) / 2) by field.
  lra.
Qed.

(** C5 as stated fails: with r = 0, which [L > r >= 0] allows, the general
    branch divides by [zdiv = (B - C) r (...)], which is zero. *)
Lemma xyzeFromMechanical_divides_by_zero :
  let self := new 0 1 10 85 1 1 in
  0 <= r self < L self /\ 0 < STEPS_MM self /\ 0 < STEPS_MM_EXT self /\
  xyzeFromMechanical self (0, 1, 2, 0)%Z = None.
Proof.
  cbv zeta. unfold new. cbn [r L STEPS_MM STEPS_MM_EXT].
  repeat split; try lra.
  unfold xyzeFromMechanical. cbn [r L MM_STEPS MM_STEPS_EXT at_axis]. cbv zeta.
  rewrite (Reqb_false (0 * (1 / 1)) (1 * (1 / 1))) by lra.
  rewrite (Reqb_false (1 * (1 / 1)) (2 * (1 / 1))) by lra.
  cbn [andb].
  rewrite checked_div_none by ring. reflexivity.
Qed.

(** C5, for [r > 0]. With [L > r > 0] and positive steps per mm no quotient
    of [xyzeFromMechanical] is by zero, whatever the step counts: the function
    returns a position. *)
Theorem xyzeFromMechanical_total :
  forall (self : LinearDeltaCoordMap) (mech : array4),
    0 < r self < L self ->
    0 < STEPS_MM self ->
    0 < STEPS_MM_EXT self ->
    exists xyze : xyze_t, xyzeFromMechanical self mech = Some xyze.
Proof.
  intros self mech [Hr HL] _ _. unfold xyzeFromMechanical. cbv zeta.
  set (A := IZR (at_axis mech DELTA_AXIS_A) * MM_STEPS self).
  set (B := IZR (at_axis mech DELTA_AXIS_B) * MM_STEPS self).
  set (C := IZR (at_axis mech DELTA_AXIS_C) * MM_STEPS self).
  assert (Hsqrt3 : 0 < sqrt 3) by (apply sqrt_lt_R0; lra).
  destruct (Reqb B C) eqn:HBC.
  - destruct (Reqb A B) eqn:HAB; cbn [andb].
    + eexists. reflexivity.
    + apply Reqb_neq in HAB.
      assert (Hydiv : 2 * (4 * A * A - 8 * A * B + 4 * B * B + 9 * r self * r self) <> 0)
        by nra.
      assert (HAB' : A - B <> 0) by lra.
      rewrite (checked_div_some _ _ (Rmult_integral_contrapositive_currified _ _ HAB' Hydiv)).
      rewrite (checked_div_some _ _ Hydiv).
      rewrite (checked_div_some _ _ HAB').
      eexists. reflexivity.
  - rewrite andb_false_r.
    apply Reqb_neq in HBC.
    pose proof (spread_positive A B C HBC) as Hs.
    assert (HBC' : B - C <> 0) by lra.
    assert (Hr' : r self <> 0) by lra.
    assert (Hq : 4 * (A * A + B * B - B * C + C * C - A * (B + C)) + 9 * r self * r self <> 0)
      by nra.
    assert (Hzdiv : (B - C) * r self *
                    (4 * (A * A + B * B - B * C + C * C - A * (B + C))
                     + 9 * r self * r self) <> 0).
    { apply Rmult_integral_contrapositive_currified; [| exact Hq].
      apply Rmult_integral_contrapositive_currified; assumption. }
    assert (H2 : 2 * sqrt 3 * r self <> 0).
    { apply Rmult_integral_contrapositive_currified; [lra | exact Hr']. }
    assert (H6 : 6 * r self <> 0) by lra.
    rewrite !(checked_div_some _ _ Hzdiv).
    rewrite (checked_div_some _ _ H2).
    rewrite (checked_div_some _ _ H6).
    eexists. reflexivity.
Qed.

Lemma xyzeFromMechanical_total_witness :
  exists xyze : xyze_t, xyzeFromMechanical small_delta (0, 2, 4, 0)%Z = Some xyze.
Proof.
  apply (xyzeFromMechanical_total small_delta (0, 2, 4, 0)%Z);
    unfold small_delta, new; cbn [r L STEPS_MM STEPS_MM_EXT]; lra.
Defined.

Close Scope R_scope.

End Kinematics.

(** ** RCThermistor: the search for the resistance *)

Section ResistanceSearch.

Import RCThermistor.
Open Scope R_scope.

Variables R_OHMS C_PICO VCC_mV V_TOGGLE_mV : N.
Variables MIN_R MAX_R : N.

Local Abbreviation Ra := (RCThermistor.Ra R_OHMS).
Local Abbreviation Vcc := (RCThermistor.Vcc VCC_mV).
Local Abbreviation Va := (RCThermistor.Va V_TOGGLE_mV).
Local Abbreviation Cap := (RCThermistor.C C_PICO).
Local Abbreviation lo := (unsigned_to_float MIN_R).
Local Abbreviation hi := (unsigned_to_float MAX_R).
Local Abbreviation calcT := (RCThermistor.calcT R_OHMS C_PICO VCC_mV V_TOGGLE_mV).
Local Abbreviation guess_step :=
  (RCThermistor.guess_step R_OHMS C_PICO VCC_mV V_TOGGLE_mV).
Local Abbreviation guess_loop :=
  (RCThermistor.guess_loop R_OHMS C_PICO VCC_mV V_TOGGLE_mV).
Local Abbreviation loop_state :=
  (RCThermistor.loop_state R_OHMS C_PICO VCC_mV V_TOGGLE_mV MIN_R MAX_R).
Local Abbreviation guessRFromTime :=
  (RCThermistor.guessRFromTime R_OHMS C_PICO VCC_mV V_TOGGLE_mV MIN_R MAX_R).
Local Abbreviation separates :=
  (RCThermistor.separates R_OHMS C_PICO VCC_mV V_TOGGLE_mV MIN_R MAX_R).
Local Abbreviation circuit_ok :=
  (RCThermistor.circuit_ok C_PICO VCC_mV V_TOGGLE_mV).

Lemma unsigned_to_float_nonneg (n : N) : 0 <= unsigned_to_float n.
Proof. unfold unsigned_to_float. apply IZR_le. lia. Qed.

Lemma unsigned_to_float_pos (n : N) : (0 < n)%N -> 0 < unsigned_to_float n.
Proof. intros H. unfold unsigned_to_float. apply IZR_lt. lia. Qed.

Lemma unsigned_to_float_lt (n m : N) :
  (n < m)%N -> unsigned_to_float n < unsigned_to_float m.
Proof. intros H. unfold unsigned_to_float. apply IZR_lt. lia. Qed.

(** *** The loop *)

Lemma guess_loop_eq (time : R) (b : R * R) :
  guess_loop time b =
    if guess_guard_dec b then guess_loop time (guess_step time b) else b.
Proof.
  rewrite guess_loop_equation_1.
  destruct (guess_guard_dec b); reflexivity.
Qed.

(** Whatever holds on entry and is kept by the body holds on exit, where the
    loop condition is false. The loop always exits: [guess_loop] is total. *)
Lemma guess_loop_exit (time : R) (P : R * R -> Prop) :
  (forall b, P b -> guess_guard b -> P (guess_step time b)) ->
  forall b, P b -> P (guess_loop time b) /\ ~ guess_guard (guess_loop time b).
Proof.
  intros Hstep b.
  funelim (guess_loop time b).
  - intros HP.
    match goal with IH : forall Q : R * R -> Prop, _ |- _ => apply IH end.
    + exact Hstep.
    + apply Hstep; assumption.
  - intros HP. split; assumption.
Qed.

Lemma guess_loop_reaches (time : R) :
  let b := guess_loop time (lo, hi) in
  loop_state time b /\ snd b - fst b <= 2.
Proof.
  destruct (guess_loop_exit time (loop_state time)) with (b := (lo, hi))
    as [Hs Hg].
  - intros b Hb Hgd. apply loop_iterate; assumption.
  - apply loop_enter.
  - split; [exact Hs |]. unfold guess_guard in Hg. lra.
Qed.

Lemma guess_step_narrows (time : R) (b : R * R) :
  guess_guard b ->
  snd (guess_step time b) - fst (guess_step time b) < snd b - fst b.
Proof.
  intros Hg. rewrite guess_step_width.
  unfold guess_guard in Hg. lra.
Qed.

(** *** The bracket *)

Lemma bracket_kept (Rt : R) :
  separates Rt -> lo <= Rt <= hi ->
  forall b, loop_state (calcT Rt) b ->
    lo <= fst b /\ fst b <= Rt /\ Rt <= snd b /\ snd b <= hi.
Proof.
  intros Hsep HRt b Hb. induction Hb as [| [lower upper] Hb IH Hg].
  - simpl. lra.
  - simpl in IH. unfold guess_guard in Hg. simpl in Hg.
    unfold RCThermistor.guess_step.
    assert (Hmid : lo < 0.5 * (upper + lower) < hi) by lra.
    destruct (Rlt_dec (calcT (0.5 * (upper + lower))) (calcT Rt)) as [Hlt | Hge];
      simpl.
    + apply (Hsep _ Hmid) in Hlt. lra.
    + assert (~ 0.5 * (upper + lower) < Rt)
        by (intros Hc; apply Hge; apply (Hsep _ Hmid); exact Hc).
      lra.
Qed.

Lemma increasing_separates (Rt : R) :
  (forall a b, lo <= a -> a < b -> b <= hi -> calcT a < calcT b) ->
  lo <= Rt <= hi -> separates Rt.
Proof.
  intros Hinc HRt x Hx. split.
  - intros Hlt. destruct (Rlt_dec x Rt) as [| Hn]; [assumption | exfalso].
    destruct (Req_dec_T x Rt) as [-> | Hne]; [lra |].
    assert (calcT Rt < calcT x) by (apply Hinc; lra). lra.
  - intros Hlt. apply Hinc; lra.
Qed.

Lemma guessRFromTime_midpoint (time : R) :
  guessRFromTime time =
    0.5 * (fst (guess_loop time (lo, hi)) + snd (guess_loop time (lo, hi))).
Proof.
  unfold RCThermistor.guessRFromTime.
  destruct (guess_loop time (lo, hi)). reflexivity.
Qed.

(** The value returned for the duration of [Rt] is within 1 ohm of [Rt]. *)
Lemma guessRFromTime_close (Rt : R) :
  separates Rt -> lo <= Rt <= hi ->
  Rabs (guessRFromTime (calcT Rt) - Rt) <= 1.
Proof.
  intros Hsep HRt. rewrite guessRFromTime_midpoint.
  destruct (guess_loop_reaches (calcT Rt)) as [Hs Hw].
  pose proof (bracket_kept Rt Hsep HRt _ Hs) as (H1 & H2 & H3 & H4).
  apply Rabs_le. lra.
Qed.

(** *** The circuit model *)

Lemma div_ge_1 (a b : R) : 0 < b -> b <= a -> 1 <= a / b.
Proof.
  intros Hb Hab. apply (Rmult_le_reg_r b); [exact Hb |].
  unfold Rdiv. rewrite Rmult_assoc, Rinv_l; lra.
Qed.

Lemma div_ge_1_inv (a b : R) : 0 < b -> 1 <= a / b -> b <= a.
Proof.
  intros Hb H. apply (Rmult_le_compat_r b) in H; [| lra].
  unfold Rdiv in H. rewrite Rmult_assoc, Rinv_l in H; lra.
Qed.

Lemma div_lt_1 (a b : R) : 0 < b -> a < b -> a / b < 1.
Proof.
  intros Hb Hab. apply (Rmult_lt_reg_r b); [exact Hb |].
  unfold Rdiv. rewrite Rmult_assoc, Rinv_l; lra.
Qed.

Lemma div_le_div (a b c d : R) :
  0 < b -> 0 < d -> a * d <= c * b -> a / b <= c / d.
Proof.
  intros Hb Hd H.
  replace (a / b) with (a * d / (b * d)) by (field; lra).
  replace (c / d) with (c * b / (b * d)) by (field; lra).
  unfold Rdiv. apply Rmult_le_compat_r; [| exact H].
  left. apply Rinv_0_lt_compat. nra.
Qed.

Lemma ln_nonneg (x : R) : 1 <= x -> 0 <= ln x.
Proof.
  intros [Hlt | Heq].
  - left. rewrite <- ln_1. apply ln_increasing; lra.
  - rewrite <- Heq, ln_1. lra.
Qed.

Lemma ln_le_compat (x y : R) : 0 < x -> x <= y -> ln x <= ln y.
Proof.
  intros Hx [Hlt | Heq].
  - left. apply ln_increasing; assumption.
  - rewrite Heq. lra.
Qed.

Lemma ln_le_minus_1 (x : R) : 0 < x -> ln x <= x - 1.
Proof.
  intros Hx. pose proof (exp_ineq1_le (ln x)) as H.
  rewrite exp_ln in H by exact Hx. lra.
Qed.


Lemma circuit_ok_reals :
  circuit_ok -> 0 < Cap /\ 0 < Va /\ Va < Vcc /\ 0 <= Ra.
Proof.
  intros (HC & HVa & HVcc).
  unfold RCThermistor.C, RCThermistor.Va, RCThermistor.Vcc, RCThermistor.Ra.
  pose proof (unsigned_to_float_pos _ HC).
  pose proof (unsigned_to_float_pos _ HVa).
  pose proof (unsigned_to_float_lt _ _ HVcc).
  pose proof (unsigned_to_float_nonneg R_OHMS).
  repeat split; lra.
Qed.

(** Where the logarithm of the model is not negative at [y], the predicted
    duration at [y] exceeds the one at every smaller positive resistance. *)
Lemma calcT_lt (x y : R) :
  circuit_ok -> 0 < x -> x < y -> (Ra + y) * Va <= y * Vcc ->
  calcT x < calcT y.
Proof.
  intros Hok Hx Hxy Hy.
  destruct (circuit_ok_reals Hok) as (HC & HVa & HVcc & HRa).
  unfold RCThermistor.calcT.
  set (gx := x * Vcc / ((Ra + x) * Va)).
  set (gy := y * Vcc / ((Ra + y) * Va)).
  assert (Hdx : 0 < (Ra + x) * Va) by nra.
  assert (Hdy : 0 < (Ra + y) * Va) by nra.
  assert (Hgx : 0 < gx) by (apply Rdiv_lt_0_compat; nra).
  assert (Hgy : 1 <= gy) by (apply div_ge_1; assumption).
  pose proof (ln_nonneg gy Hgy) as Hlgy.
  assert (Hyl : 0 <= y * ln gy) by nra.
  destruct (Rlt_dec gx 1) as [Hlt | Hge].
  - assert (Hlgx : ln gx < 0) by (rewrite <- ln_1; apply ln_increasing; lra).
    assert (x * ln gx < 0) by nra.
    rewrite !(Rmult_assoc Cap). apply Rmult_lt_compat_l; lra.
  - assert (Hgx1 : 1 <= gx) by lra.
    pose proof (div_ge_1_inv _ _ Hdx Hgx1) as Hx'.
    pose proof (ln_nonneg gx Hgx1) as Hlgx.
    assert (Hle : gx <= gy).
    { apply div_le_div; try assumption.
      assert (Hd : y * Vcc * ((Ra + x) * Va) - x * Vcc * ((Ra + y) * Va)
                   = Vcc * Va * Ra * (y - x)) by ring.
      assert (0 <= Vcc * Va * Ra * (y - x))
        by (apply Rmult_le_pos; [apply Rmult_le_pos; [apply Rmult_le_pos |] |]; lra).
      lra. }
    pose proof (ln_le_compat gx gy Hgx Hle) as Hll.
    assert (Hgy' : 1 < gy).
    { apply (Rmult_lt_reg_r ((Ra + y) * Va)); [exact Hdy |].
      unfold gy, Rdiv. rewrite Rmult_assoc, Rinv_l; nra. }
    assert (Hlgy' : 0 < ln gy) by (rewrite <- ln_1; apply ln_increasing; lra).
    assert (x * ln gx <= x * ln gy) by (apply Rmult_le_compat_l; lra).
    assert (x * ln gy < y * ln gy) by (apply Rmult_lt_compat_r; lra).
    rewrite !(Rmult_assoc Cap). apply Rmult_lt_compat_l; lra.
Qed.

(** So a resistance at which the logarithm is not negative separates the
    range of the search, even when the range starts at 0. *)
Lemma nonneg_log_separates (Rt : R) :
  circuit_ok -> lo <= Rt <= hi -> (Ra + Rt) * Va <= Rt * Vcc ->
  forall x, 0 < x -> (calcT x < calcT Rt <-> x < Rt).
Proof.
  intros Hok HRt Hlog x Hx.
  destruct (circuit_ok_reals Hok) as (HC & HVa & HVcc & HRa).
  split.
  - intros Hlt. destruct (Rlt_dec x Rt) as [| Hn]; [assumption | exfalso].
    destruct (Req_dec_T x Rt) as [-> | Hne]; [lra |].
    assert (HRtx : Rt < x) by lra.
    pose proof (unsigned_to_float_nonneg MIN_R) as Hlo.
    assert (Hxlog : (Ra + x) * Va <= x * Vcc) by nra.
    destruct (Req_dec_T Rt 0) as [H0 | H0].
    + (* the duration at 0 is 0, the one at x is not negative *)
      assert (HT0 : calcT Rt = 0) by (unfold RCThermistor.calcT; rewrite H0; ring).
      assert (Hdx : 0 < (Ra + x) * Va) by nra.
      pose proof (ln_nonneg _ (div_ge_1 _ _ Hdx Hxlog)) as Hl.
      assert (0 <= calcT x).
      { unfold RCThermistor.calcT. apply Rmult_le_pos; [nra | exact Hl]. }
      lra.
    + assert (calcT Rt < calcT x) by (apply calcT_lt; try assumption; lra).
      lra.
  - intros Hlt. apply calcT_lt; assumption.
Qed.

(** *** The claims *)

(** C8. Let the duration be the one the model predicts for a resistance
    [Rt_true] of the range, and let the model be increasing on the range.
    Then each time the loop tests its condition [lower <= Rt_true <= upper]
    holds; each pass through the body makes the bracket strictly narrower;
    and the loop ends, with a bracket at most 2 ohms wide whose midpoint is
    the value returned. *)
Theorem guessRFromTime_bracket_invariant :
  forall Rt_true : R,
    lo <= Rt_true <= hi ->
    (forall a b, lo <= a -> a < b -> b <= hi -> calcT a < calcT b) ->
    let time := calcT Rt_true in
    (forall b, loop_state time b -> fst b <= Rt_true <= snd b) /\
    (forall b, loop_state time b -> guess_guard b ->
       snd (guess_step time b) - fst (guess_step time b) < snd b - fst b) /\
    (let b := guess_loop time (lo, hi) in
     loop_state time b /\ snd b - fst b <= 2 /\
     guessRFromTime time = 0.5 * (fst b + snd b)).
Proof.
  intros Rt HRt Hinc time.
  assert (Hsep : separates Rt).
  { intros x Hx. apply (increasing_separates Rt Hinc HRt). lra. }
  split; [| split].
  - intros b Hb. pose proof (bracket_kept Rt Hsep HRt b Hb). lra.
  - intros b _ Hg. apply guess_step_narrows. exact Hg.
  - destruct (guess_loop_reaches time) as [Hs Hw].
    repeat split; [exact Hs | exact Hw | apply guessRFromTime_midpoint].
Qed.

(** C9, where the model can be inverted. For a sound circuit and a
    resistance [Rt] of the range at which the logarithm of the model is not
    negative, that is [Rt Vcc >= (Ra + Rt) Va], the resistance found for the
    predicted duration is within 2 ohms of [Rt]. *)
Theorem guessRFromTime_round_trip :
  forall Rt : R,
    circuit_ok ->
    lo <= Rt <= hi ->
    (Ra + Rt) * Va <= Rt * Vcc ->
    Rabs (guessRFromTime (calcT Rt) - Rt) <= 2.
Proof.
  intros Rt Hok HRt Hlog.
  assert (Hsep : separates Rt).
  { intros x Hx. apply nonneg_log_separates; try assumption.
    pose proof (unsigned_to_float_nonneg MIN_R). lra. }
  pose proof (guessRFromTime_close Rt Hsep HRt). lra.
Qed.

End ResistanceSearch.

(** *** A circuit: 500 ohm, 100 nF, 3.3 V supply, threshold at 1.65 V *)

Section ExampleCircuit.

Import RCThermistor.
Open Scope R_scope.

Local Abbreviation calcT := (RCThermistor.calcT 500 100000 3300 1650).

Lemma example_circuit_ok : circuit_ok 100000 3300 1650.
Proof. unfold circuit_ok. repeat split; reflexivity. Qed.

Lemma example_log_nonneg (x : R) :
  500 <= x -> (Ra 500 + x) * Va 1650 <= x * Vcc 3300.
Proof.
  intros Hx. unfold Ra, Va, Vcc, unsigned_to_float. simpl Z.of_N. lra.
Qed.

Lemma example_increasing (a b : R) :
  500 <= a -> a < b -> calcT a < calcT b.
Proof.
  intros Ha Hab. apply calcT_lt.
  - exact example_circuit_ok.
  - lra.
  - exact Hab.
  - apply example_log_nonneg. lra.
Qed.

End ExampleCircuit.

Lemma guessRFromTime_bracket_invariant_witness :
  let time := RCThermistor.calcT 500 100000 3300 1650 700 in
  let b :=
    RCThermistor.guess_loop 500 100000 3300 1650 time
      (RCThermistor.unsigned_to_float 500, RCThermistor.unsigned_to_float 1000) in
  (fst b <= 700 <= snd b)%R /\ (snd b - fst b <= 2)%R.
Proof.
  assert (HRt : (RCThermistor.unsigned_to_float 500 <= 700
                 <= RCThermistor.unsigned_to_float 1000)%R)
    by (unfold RCThermistor.unsigned_to_float; simpl Z.of_N; lra).
  assert (Hinc : forall a b : R,
             (RCThermistor.unsigned_to_float 500 <= a)%R -> (a < b)%R ->
             (b <= RCThermistor.unsigned_to_float 1000)%R ->
             (RCThermistor.calcT 500 100000 3300 1650 a
              < RCThermistor.calcT 500 100000 3300 1650 b)%R).
  { intros a b Ha Hab _. apply example_increasing; [| exact Hab].
    unfold RCThermistor.unsigned_to_float in Ha. simpl Z.of_N in Ha. lra. }
  destruct (guessRFromTime_bracket_invariant 500 100000 3300 1650 500 1000
              700%R HRt Hinc) as (Hinv & _ & Hs & Hw & _).
  split; [apply Hinv; exact Hs | exact Hw].
Defined.

(** *** The search on the machine's numbers *)

Section SearchStalls.

Import Floats.SpecFloat.

Variable log : spec_float -> spec_float.
Variables R_OHMS C_PICO VCC_mV V_TOGGLE_mV : N.

Local Abbreviation lower := (Binary32.float_of_int 33554436).
Local Abbreviation upper := (Binary32.float_of_int 33554440).
Local Abbreviation guess_step :=
  (Binary32.guess_step log R_OHMS C_PICO VCC_mV V_TOGGLE_mV).
Local Abbreviation guess_loop :=
  (Binary32.guess_loop log R_OHMS C_PICO VCC_mV V_TOGGLE_mV).

(** Between 2^25 and 2^26 consecutive [float] values are 4 apart: the sum
    of these two is rounded up, and half of it is the upper one. *)
Lemma half_sum_rounds_to_upper : Binary32.half_sum upper lower = upper.
Proof. vm_compute. reflexivity. Qed.

Lemma adjacent_bracket_guard : Binary32.guess_guard (lower, upper) = true.
Proof. vm_compute. reflexivity. Qed.

Lemma collapsed_bracket_guard : Binary32.guess_guard (upper, upper) = false.
Proof. vm_compute. reflexivity. Qed.

Lemma adjacent_bracket_step (time : Binary32.float) :
  guess_step time (lower, upper) = (lower, upper) \/
  guess_step time (lower, upper) = (upper, upper).
Proof.
  unfold Binary32.guess_step. rewrite half_sum_rounds_to_upper. cbv zeta.
  destruct (SFltb _ time); [right | left]; reflexivity.
Qed.

Lemma adjacent_bracket_loop (time : Binary32.float) (fuel : nat) :
  guess_loop fuel time (lower, upper) = None \/
  guess_loop fuel time (lower, upper) = Some (upper, upper).
Proof.
  induction fuel as [| fuel IH].
  - left. cbn [Binary32.guess_loop]. rewrite adjacent_bracket_guard. reflexivity.
  - cbn [Binary32.guess_loop]. rewrite adjacent_bracket_guard.
    destruct (adjacent_bracket_step time) as [Hs | Hs]; rewrite Hs.
    + exact IH.
    + right. destruct fuel; cbn [Binary32.guess_loop];
        rewrite collapsed_bracket_guard; reflexivity.
Qed.

End SearchStalls.

(** C8 as stated, on the machine's numbers: in single precision, on the
    range [33554436, 33554440] (two consecutive [float] values, 4 apart) the
    loop is entered and the midpoint is rounded to the upper bound. Whatever
    [log] computes, whatever the circuit and the duration, a pass through the
    body leaves the bracket as it is, not narrower, or makes it
    [(upper, upper)], which no longer holds a resistance of 33554436; and
    after any number of passes the function is still looping or returns
    33554440. *)
Lemma guessRFromTime_stalls_binary32 :
  let lower := Binary32.float_of_int 33554436 in
  let upper := Binary32.float_of_int 33554440 in
  (Binary32.guess_guard (lower, upper) = true /\
   Binary32.half_sum upper lower = upper) /\
  (forall (log : SpecFloat.spec_float -> SpecFloat.spec_float)
          (R_OHMS C_PICO VCC_mV V_TOGGLE_mV : N) (time : Binary32.float),
     let step := Binary32.guess_step log R_OHMS C_PICO VCC_mV V_TOGGLE_mV time in
     step (lower, upper) = (lower, upper) \/ step (lower, upper) = (upper, upper)) /\
  (forall (log : SpecFloat.spec_float -> SpecFloat.spec_float)
          (R_OHMS C_PICO VCC_mV V_TOGGLE_mV : N) (time : Binary32.float)
          (fuel : nat),
     let result :=
       Binary32.guessRFromTime log R_OHMS C_PICO VCC_mV V_TOGGLE_mV
         33554436 33554440 fuel time in
     result = None \/ result = Some upper).
Proof.
  cbv zeta. split; [split | split].
  - exact adjacent_bracket_guard.
  - exact half_sum_rounds_to_upper.
  - intros log R_OHMS C_PICO VCC_mV V_TOGGLE_mV time.
    apply adjacent_bracket_step.
  - intros log R_OHMS C_PICO VCC_mV V_TOGGLE_mV time fuel.
    unfold Binary32.guessRFromTime. cbv zeta.
    change (Binary32.float_of_unsigned 33554436) with (Binary32.float_of_int 33554436).
    change (Binary32.float_of_unsigned 33554440) with (Binary32.float_of_int 33554440).
    destruct (adjacent_bracket_loop log R_OHMS C_PICO VCC_mV V_TOGGLE_mV time fuel)
      as [H | H]; rewrite H; [left; reflexivity | right].
    vm_compute. reflexivity.
Qed.

Lemma guessRFromTime_round_trip_witness :
  (Rabs (RCThermistor.guessRFromTime 500 100000 3300 1650 0 200000
           (RCThermistor.calcT 500 100000 3300 1650 100000) - 100000) <= 2)%R.
Proof.
  apply (guessRFromTime_round_trip 500 100000 3300 1650 0 200000 100000%R).
  - exact example_circuit_ok.
  - unfold RCThermistor.unsigned_to_float; simpl Z.of_N; lra.
  - apply example_log_nonneg. lra.
Defined.

(** With the range starting at 0 the model is not increasing on all of it.
    Range [0, 1000], resistance 1 ohm: the duration is negative; the first
    midpoint, 500, predicts 0 and becomes the upper bound; the second, 250,
    predicts less than the duration and becomes the lower bound. *)
Section RoundTripFails.

Import RCThermistor.
Open Scope R_scope.

Local Abbreviation calcT := (RCThermistor.calcT 500 100000 3300 1650).
Local Abbreviation guess_step := (RCThermistor.guess_step 500 100000 3300 1650).
Local Abbreviation guess_loop := (RCThermistor.guess_loop 500 100000 3300 1650).

Lemma example_capacitor_positive : 0 < C 100000.
Proof. apply (circuit_ok_reals 500 100000 3300 1650 example_circuit_ok). Qed.

Lemma ln_2_le_1 : ln 2 <= 1.
Proof. pose proof (ln_le_minus_1 2). lra. Qed.

Lemma calcT_1_negative : calcT 1 < 0.
Proof.
  unfold RCThermistor.calcT, Ra, Va, Vcc, unsigned_to_float. simpl Z.of_N.
  pose proof example_capacitor_positive as HC.
  replace (1 * (3300 / 1000) / ((500 + 1) * (1650 / 1000))) with (2 / 501) by field.
  assert (Hl : ln (2 / 501) < 0) by (rewrite <- ln_1; apply ln_increasing; lra).
  nra.
Qed.

Lemma calcT_1_lower_bound : C 100000 * (-8) <= calcT 1.
Proof.
  unfold RCThermistor.calcT, Ra, Va, Vcc, unsigned_to_float. simpl Z.of_N.
  pose proof example_capacitor_positive as HC.
  replace (1 * (3300 / 1000) / ((500 + 1) * (1650 / 1000))) with (/ (501 / 2)) by field.
  rewrite ln_Rinv by lra.
  assert (Hl : ln (501 / 2) <= 8).
  { apply Rle_trans with (ln (2 ^ 8)).
    - apply ln_le_compat; lra.
    - rewrite ln_pow by lra. simpl INR. pose proof ln_2_le_1. lra. }
  nra.
Qed.

Lemma calcT_500 : calcT 500 = 0.
Proof.
  unfold RCThermistor.calcT, Ra, Va, Vcc, unsigned_to_float. simpl Z.of_N.
  replace (500 * (3300 / 1000) / ((500 + 500) * (1650 / 1000))) with 1 by field.
  rewrite ln_1. ring.
Qed.

Lemma calcT_250_upper_bound : calcT 250 <= C 100000 * (-83).
Proof.
  unfold RCThermistor.calcT, Ra, Va, Vcc, unsigned_to_float. simpl Z.of_N.
  pose proof example_capacitor_positive as HC.
  replace (250 * (3300 / 1000) / ((500 + 250) * (1650 / 1000))) with (2 / 3) by field.
  pose proof (ln_le_minus_1 (2 / 3)) as Hl.
  nra.
Qed.

Lemma first_two_passes :
  guess_loop (calcT 1) (unsigned_to_float 0, unsigned_to_float 1000) =
  guess_loop (calcT 1) (250, 500).
Proof.
  pose proof calcT_1_negative as Hneg.
  pose proof calcT_1_lower_bound as Hlow.
  pose proof calcT_500 as H500.
  pose proof calcT_250_upper_bound as H250.
  pose proof example_capacitor_positive as HC.
  unfold unsigned_to_float. simpl Z.of_N.
  rewrite (guess_loop_eq 500 100000 3300 1650 (calcT 1) (0, 1000)).
  destruct (guess_guard_dec (0, 1000)) as [_ | Hn];
    [| exfalso; apply Hn; unfold guess_guard; simpl; lra].
  unfold RCThermistor.guess_step at 1.
  replace (0.5 * (1000 + 0)) with 500 by lra.
  destruct (Rlt_dec (calcT 500) (calcT 1)) as [Hlt | _]; [lra |].
  rewrite (guess_loop_eq 500 100000 3300 1650 (calcT 1) (0, 500)).
  destruct (guess_guard_dec (0, 500)) as [_ | Hn];
    [| exfalso; apply Hn; unfold guess_guard; simpl; lra].
  unfold RCThermistor.guess_step at 1.
  replace (0.5 * (500 + 0)) with 250 by lra.
  destruct (Rlt_dec (calcT 250) (calcT 1)) as [_ | Hge]; [reflexivity |].
  exfalso. apply Hge. nra.
Qed.

End RoundTripFails.

(** C9 as stated fails: in the range [0, 1000] of the circuit above, the
    resistance found for the duration of 1 ohm is 250 ohms or more. *)
Lemma guessRFromTime_round_trip_fails :
  (RCThermistor.unsigned_to_float 0 <= 1 <= RCThermistor.unsigned_to_float 1000)%R /\
  (Rabs (RCThermistor.guessRFromTime 500 100000 3300 1650 0 1000
           (RCThermistor.calcT 500 100000 3300 1650 1) - 1) > 2)%R.
Proof.
  split.
  - unfold RCThermistor.unsigned_to_float. simpl Z.of_N. lra.
  - rewrite guessRFromTime_midpoint, first_two_passes.
    destruct (guess_loop_exit 500 100000 3300 1650
                (RCThermistor.calcT 500 100000 3300 1650 1)
                (fun b => 250 <= fst b /\ fst b <= snd b)%R) with (b := (250, 500)%R)
      as [[Hl Hu] _].
    + intros [l u] [H1 H2] Hg. unfold RCThermistor.guess_guard in Hg.
      simpl in *. unfold RCThermistor.guess_step.
      destruct (Rlt_dec _ _); simpl; lra.
    + simpl. lra.
    + rewrite Rabs_pos_eq; lra.
Qed.

(** * Further properties *)

(** ** A4988: construction, locking, the order of the output events *)

Lemma makeDigitalOutput_effect (p : PinId) (l : IoLevel) (w : World) :
  let w' := snd (makeDigitalOutput p l w) in
  trace w' = trace w ++ [OpMakeDigitalOutput p l] /\
  pinMode w' p = PinOutput /\ pinOut w' p = l /\
  (forall q, q <> p -> pinMode w' q = pinMode w q /\ pinOut w' q = pinOut w q) /\
  reads w' = reads w /\ nows w' = nows w /\
  samples w' = samples w /\ clock w' = clock w.
Proof.
  simpl. repeat split; auto using upd_same; apply upd_other; assumption.
Qed.

(** X1. Built on three different pins, the driver leaves all three as
    outputs, step and direction low and enable high, by three pin operations
    in that order; no other pin is touched. *)
Theorem init_enables_driver :
  forall (StepPin DirPin EnablePin : PinId) (w : World),
    StepPin <> DirPin -> StepPin <> EnablePin -> DirPin <> EnablePin ->
    let w' := snd (A4988.init StepPin DirPin EnablePin w) in
    (pinMode w' StepPin = PinOutput /\ pinOut w' StepPin = IoLow) /\
    (pinMode w' DirPin = PinOutput /\ pinOut w' DirPin = IoLow) /\
    (pinMode w' EnablePin = PinOutput /\ pinOut w' EnablePin = IoHigh) /\
    (forall q, q <> StepPin -> q <> DirPin -> q <> EnablePin ->
       pinMode w' q = pinMode w q /\ pinOut w' q = pinOut w q) /\
    trace w' = trace w ++ [OpMakeDigitalOutput StepPin IoLow;
                           OpMakeDigitalOutput DirPin IoLow;
                           OpMakeDigitalOutput EnablePin IoHigh].
Proof.
  intros StepPin DirPin EnablePin w Hsd Hse Hde w'. subst w'.
  unfold A4988.init, bind. simpl.
  repeat split; intros;
    try (rewrite <- !app_assoc; reflexivity);
    rewrite ?upd_other by auto; rewrite ?upd_same; reflexivity.
Qed.

Lemma init_enables_driver_witness :
  let w' := snd (A4988.init 1%Z 2%Z 3%Z world0) in
  pinOut w' 1%Z = IoLow /\ pinOut w' 2%Z = IoLow /\ pinOut w' 3%Z = IoHigh /\
  pinMode w' 4%Z = PinUnconfigured.
Proof.
  assert (H12 : (1 <> 2)%Z) by lia.
  assert (H13 : (1 <> 3)%Z) by lia.
  assert (H23 : (2 <> 3)%Z) by lia.
  destruct (init_enables_driver 1%Z 2%Z 3%Z world0 H12 H13 H23)
    as ((_ & Hs) & (_ & Hd) & (_ & He) & Hq & _).
  split; [exact Hs | split; [exact Hd | split; [exact He |]]].
  apply (Hq 4%Z); lia.
Defined.

(** X2. The last write to the enable pin wins, whatever the pins: after
    construction [lockAxis] changes no level and no mode (the driver is
    enabled already); [unlockAxis] then [lockAxis] leaves every pin as
    [lockAxis] alone does, and [lockAxis] then [unlockAxis] as [unlockAxis]
    alone. *)
Theorem lockAxis_last_write_wins :
  forall (StepPin DirPin EnablePin : PinId) (w : World) (q : PinId),
    let built := snd (A4988.init StepPin DirPin EnablePin w) in
    let lock v := snd (A4988.lockAxis EnablePin v) in
    let unlock v := snd (A4988.unlockAxis EnablePin v) in
    (pinOut (lock built) q = pinOut built q /\
     pinMode (lock built) q = pinMode built q) /\
    (pinOut (lock (unlock w)) q = pinOut (lock w) q /\
     pinMode (lock (unlock w)) q = pinMode (lock w) q) /\
    (pinOut (unlock (lock w)) q = pinOut (unlock w) q /\
     pinMode (unlock (lock w)) q = pinMode (unlock w) q).
Proof.
  intros StepPin DirPin EnablePin w q. simpl.
  unfold upd. destruct (Z.eqb q EnablePin); repeat split; reflexivity.
Qed.

(** X3. With a clock that counts forward ([ticks_per_us >= 0]) the three
    output events come in order of time, none before the event's own time;
    the step pin is held low for exactly 8 microseconds before it rises, and
    no event names a pin other than the direction and step pins. *)
Theorem getEventOutputSequence_in_time_order :
  forall (StepPin DirPin : PinId) (ticks_per_us : Z) (evt : A4988.Event),
    (0 <= ticks_per_us)%Z ->
    let events := A4988.getEventOutputSequence StepPin DirPin ticks_per_us evt in
    StronglySorted Z.le (map A4988.oe_time events) /\
    Forall (fun e => (A4988.time evt <= A4988.oe_time e)%Z) events /\
    Forall (fun e => A4988.oe_pinId e = DirPin \/ A4988.oe_pinId e = StepPin) events /\
    (exists d lo hi,
        events = [d; lo; hi] /\
        A4988.oe_pinId lo = StepPin /\ A4988.oe_state lo = IoLow /\
        A4988.oe_pinId hi = StepPin /\ A4988.oe_state hi = IoHigh /\
        (A4988.oe_time hi - A4988.oe_time lo = 8 * ticks_per_us)%Z).
Proof.
  intros StepPin DirPin ticks evt Hticks events. subst events.
  unfold A4988.getEventOutputSequence, A4988.microseconds. cbn [map].
  split; [| split; [| split]].
  - repeat first [apply SSorted_nil | apply SSorted_cons
                 | apply Forall_nil | apply Forall_cons];
      cbn [A4988.oe_time]; lia.
  - repeat first [apply Forall_nil | apply Forall_cons];
      cbn [A4988.oe_time]; lia.
  - repeat first [apply Forall_nil | apply Forall_cons];
      cbn [A4988.oe_pinId]; auto.
  - do 3 eexists. split; [reflexivity |].
    cbn [A4988.oe_time A4988.oe_pinId A4988.oe_state]. repeat split; lia.
Qed.

Lemma getEventOutputSequence_in_time_order_witness :
  StronglySorted Z.le
    (map A4988.oe_time
       (A4988.getEventOutputSequence 1%Z 2%Z 1000%Z
          (A4988.mkEvent 5000000%Z 0%Z StepBackward))).
Proof.
  assert (H : (0 <= 1000)%Z) by lia.
  exact (proj1 (getEventOutputSequence_in_time_order 1%Z 2%Z 1000%Z
                  (A4988.mkEvent 5000000%Z 0%Z StepBackward) H)).
Defined.

(** ** RCThermistor: a whole read *)

(** Polls that see the line high answer false and leave the sensor, the pins
    and the clock as they were. *)
Lemma poll_while_high (Pin : PinId) (n : nat) :
  forall (self : RCThermistor.RCThermistor) (w : World),
    (forall k, (k < n)%nat -> samples w (reads w + k) = IoHigh) ->
    let '(answers, self', w') := RCThermistor.poll Pin n self w in
    answers = repeat false n /\ self' = self /\
    pinMode w' = pinMode w /\ pinOut w' = pinOut w /\
    nows w' = nows w /\ clock w' = clock w /\ samples w' = samples w /\
    reads w' = (reads w + n)%nat.
Proof.
  induction n as [| n IH]; intros self w Hhigh.
  - simpl. repeat split. lia.
  - cbn [RCThermistor.poll]. unfold bind.
    unfold RCThermistor.isReady at 1. unfold bind, digitalRead.
    assert (H0 : samples w (reads w) = IoHigh)
      by (rewrite <- (Nat.add_0_r (reads w)); apply Hhigh; lia).
    rewrite H0. cbn [IoLevel_eqb ret fst snd].
    match goal with
    | |- context [RCThermistor.poll Pin n self ?w1] =>
        specialize (IH self w1); destruct (RCThermistor.poll Pin n self w1)
          as [[answers self'] w']
    end.
    cbn [samples reads pinMode pinOut nows clock] in IH.
    destruct IH as (Ha & Hs & Hm & Ho & Hn & Hc & Hsm & Hr).
    { intros k Hk. rewrite <- (Hhigh (S k)) by lia. f_equal. lia. }
    cbn [fst snd repeat]. rewrite Ha.
    repeat split; try assumption. lia.
Qed.

(** X4. A read from start to finish. [startRead], then polls that see the
    line high [n] times and then low: the first [n] answers are false and the
    last is true; the start time is the clock's value at [startRead] and the
    end time its next value, taken by the poll that saw the line low (the
    polls in between do not read the clock); the pin ends as an output driven
    high. *)
Theorem read_cycle_measures_discharge :
  forall (Pin : PinId) (n : nat) (self : RCThermistor.RCThermistor) (w : World),
    (forall k, (k < n)%nat -> samples w (reads w + k) = IoHigh) ->
    samples w (reads w + n) = IoLow ->
    let '(started, w1) := RCThermistor.startRead Pin self w in
    let '(waiting, polled, w2) := RCThermistor.poll Pin n started w1 in
    let '(ready, done, w3) := RCThermistor.isReady Pin polled w2 in
    pinMode w1 Pin = PinInput /\
    waiting = repeat false n /\ ready = true /\
    RCThermistor._startReadTime done = clock w (nows w) /\
    RCThermistor._endReadTime done = clock w (S (nows w)) /\
    pinMode w3 Pin = PinOutput /\ pinOut w3 Pin = IoHigh /\
    reads w3 = (reads w + S n)%nat.
Proof.
  intros Pin n self w Hhigh Hlow.
  unfold RCThermistor.startRead, bind, makeDigitalInput, now, ret.
  cbn [fst snd pinMode pinOut samples reads clock nows trace].
  match goal with
  | |- context [RCThermistor.poll Pin n ?s ?w1] =>
      pose proof (poll_while_high Pin n s w1) as Hp;
      destruct (RCThermistor.poll Pin n s w1) as [[waiting polled] w2]
  end.
  cbn [samples reads pinMode pinOut nows clock] in Hp.
  destruct (Hp Hhigh) as (Ha & Hs & Hm & Ho & Hn & Hc & Hsm & Hr).
  unfold RCThermistor.isReady, bind, digitalRead, now, makeDigitalOutput, ret.
  rewrite Hsm, Hr, Hlow. cbn [IoLevel_eqb fst snd].
  cbn [pinMode pinOut samples reads clock nows trace
       RCThermistor._startReadTime RCThermistor._endReadTime].
  rewrite ?Hs, ?Hc, ?Hn, ?Hr.
  cbn [RCThermistor._startReadTime].
  repeat split; try apply upd_same; try assumption; try reflexivity; lia.
Qed.

Lemma read_cycle_measures_discharge_witness :
  let line := fun k : nat => if Nat.ltb k 3 then IoHigh else IoLow in
  let w := mkWorld (fun _ => PinUnconfigured) (fun _ => IoLow) line 0
                   (fun k => (1000 + 250 * Z.of_nat k)%Z) 0 [] in
  let '(started, w1) := RCThermistor.startRead 4%Z (RCThermistor.mkRCThermistor 0%Z 0%Z) w in
  let '(waiting, polled, w2) := RCThermistor.poll 4%Z 3 started w1 in
  let '(ready, done, w3) := RCThermistor.isReady 4%Z polled w2 in
  waiting = [false; false; false] /\ ready = true /\
  (RCThermistor._endReadTime done - RCThermistor._startReadTime done = 250)%Z.
Proof.
  intros line w.
  assert (Hhigh : forall k, (k < 3)%nat -> samples w (reads w + k) = IoHigh).
  { intros k Hk. cbn [samples reads w Nat.add]. unfold line.
    destruct (Nat.ltb_spec k 3) as [_ | Hge]; [reflexivity | lia]. }
  assert (Hlow : samples w (reads w + 3) = IoLow) by reflexivity.
  pose proof (read_cycle_measures_discharge 4%Z 3 (RCThermistor.mkRCThermistor 0%Z 0%Z)
                w Hhigh Hlow) as H.
  destruct (RCThermistor.startRead 4%Z (RCThermistor.mkRCThermistor 0%Z 0%Z) w)
    as [started w1].
  destruct (RCThermistor.poll 4%Z 3 started w1) as [[waiting polled] w2].
  destruct (RCThermistor.isReady 4%Z polled w2) as [[ready done] w3].
  destruct H as (_ & Hw & Hr & Hs & He & _).
  split; [exact Hw | split; [exact Hr |]].
  rewrite Hs, He. reflexivity.
Defined.

(** X5. A read that never completes. After [startRead], polls that all see
    the line high answer false, leave the pin an input and the sensor as
    [startRead] left it; [timeSinceStartRead] then returns the clock's next
    value less the start time, however many polls were made. *)
Theorem stuck_read_is_observable :
  forall (Pin : PinId) (n : nat) (self : RCThermistor.RCThermistor) (w : World),
    (forall k, (k < n)%nat -> samples w (reads w + k) = IoHigh) ->
    let '(started, w1) := RCThermistor.startRead Pin self w in
    let '(waiting, polled, w2) := RCThermistor.poll Pin n started w1 in
    let '(elapsed, w3) := RCThermistor.timeSinceStartRead polled w2 in
    waiting = repeat false n /\ polled = started /\
    pinMode w3 Pin = PinInput /\
    elapsed = (clock w (S (nows w)) - clock w (nows w))%Z.
Proof.
  intros Pin n self w Hhigh.
  unfold RCThermistor.startRead, bind, makeDigitalInput, now, ret.
  cbn [fst snd pinMode pinOut samples reads clock nows trace].
  match goal with
  | |- context [RCThermistor.poll Pin n ?s ?w1] =>
      pose proof (poll_while_high Pin n s w1) as Hp;
      destruct (RCThermistor.poll Pin n s w1) as [[waiting polled] w2]
  end.
  cbn [samples reads pinMode pinOut nows clock] in Hp.
  destruct (Hp Hhigh) as (Ha & Hs & Hm & Ho & Hn & Hc & Hsm & Hr).
  unfold RCThermistor.timeSinceStartRead, bind, now, ret.
  cbn [pinMode]. rewrite Hs, Hc, Hn, Hm.
  cbn [RCThermistor._startReadTime].
  repeat split; try assumption; try reflexivity. apply upd_same.
Qed.

Lemma stuck_read_is_observable_witness :
  let w := mkWorld (fun _ => PinUnconfigured) (fun _ => IoLow) (fun _ => IoHigh) 0
                   (fun k => (1000 + 250 * Z.of_nat k)%Z) 0 [] in
  let '(started, w1) := RCThermistor.startRead 4%Z (RCThermistor.mkRCThermistor 0%Z 0%Z) w in
  let '(waiting, polled, w2) := RCThermistor.poll 4%Z 5 started w1 in
  let '(elapsed, w3) := RCThermistor.timeSinceStartRead polled w2 in
  waiting = [false; false; false; false; false] /\ elapsed = 250%Z.
Proof.
  intros w.
  assert (Hhigh : forall k, (k < 5)%nat -> samples w (reads w + k) = IoHigh)
    by (intros k _; reflexivity).
  pose proof (stuck_read_is_observable 4%Z 5 (RCThermistor.mkRCThermistor 0%Z 0%Z) w Hhigh)
    as H.
  destruct (RCThermistor.startRead 4%Z (RCThermistor.mkRCThermistor 0%Z 0%Z) w)
    as [started w1].
  destruct (RCThermistor.poll 4%Z 5 started w1) as [[waiting polled] w2].
  destruct (RCThermistor.timeSinceStartRead polled w2) as [elapsed w3].
  destruct H as (Hw & _ & _ & He).
  split; [exact Hw | rewrite He; reflexivity].
Defined.

(** ** RCThermistor: the search at its edges *)

Section SearchEdges.

Import RCThermistor.
Open Scope R_scope.

Variables R_OHMS C_PICO VCC_mV V_TOGGLE_mV : N.
Variables MIN_R MAX_R : N.

Local Abbreviation lo := (unsigned_to_float MIN_R).
Local Abbreviation hi := (unsigned_to_float MAX_R).
Local Abbreviation calcT := (RCThermistor.calcT R_OHMS C_PICO VCC_mV V_TOGGLE_mV).
Local Abbreviation guess_step :=
  (RCThermistor.guess_step R_OHMS C_PICO VCC_mV V_TOGGLE_mV).
Local Abbreviation guess_loop :=
  (RCThermistor.guess_loop R_OHMS C_PICO VCC_mV V_TOGGLE_mV).
Local Abbreviation guessRFromTime :=
  (RCThermistor.guessRFromTime R_OHMS C_PICO VCC_mV V_TOGGLE_mV MIN_R MAX_R).

Lemma unsigned_to_float_le (n m : N) :
  (n <= m)%N -> unsigned_to_float n <= unsigned_to_float m.
Proof. intros H. unfold unsigned_to_float. apply IZR_le. lia. Qed.

(** The midpoint of a bracket. *)
Let midpoint (b : R * R) : R := 0.5 * (fst b + snd b).

(** The loop never widens or moves its bracket outwards. *)
Lemma guess_loop_inside (time : R) (b : R * R) :
  fst b <= snd b ->
  fst b <= fst (guess_loop time b) /\
  fst (guess_loop time b) <= snd (guess_loop time b) /\
  snd (guess_loop time b) <= snd b.
Proof.
  intros Hb.
  apply (guess_loop_exit R_OHMS C_PICO VCC_mV V_TOGGLE_mV time
           (fun b' => fst b <= fst b' /\ fst b' <= snd b' /\ snd b' <= snd b)).
  - intros [l u] (H1 & H2 & H3) Hg. unfold guess_guard in Hg.
    cbn [fst snd] in *. unfold RCThermistor.guess_step.
    destruct (Rlt_dec _ _); cbn [fst snd]; lra.
  - lra.
Qed.



Lemma guess_step_cases (time : R) (b : R * R) :
  guess_step time b =
    if Rlt_dec (calcT (0.5 * (snd b + fst b))) time
    then (0.5 * (snd b + fst b), snd b)
    else (fst b, 0.5 * (snd b + fst b)).
Proof. destruct b. reflexivity. Qed.

(** A longer duration never makes the loop end lower. *)
Lemma guess_loop_monotone (t1 t2 : R) (b : R * R) :
  t1 <= t2 -> fst b <= snd b ->
  midpoint (guess_loop t1 b) <= midpoint (guess_loop t2 b).
Proof.
  intros Ht.
  funelim (guess_loop t1 b).
  - intros Hb.
    rewrite (guess_loop_eq R_OHMS C_PICO VCC_mV V_TOGGLE_mV t2 b).
    rewrite Heq. clear Heq Heqcall.
    unfold guess_guard in g.
    rewrite (guess_step_cases t2 b).
    rewrite (guess_step_cases time b) in *.
    set (m := 0.5 * (snd b + fst b)) in *.
    destruct (Rlt_dec (calcT m) time) as [H1 | H1];
      destruct (Rlt_dec (calcT m) t2) as [H2 | H2].
    + match goal with IH : forall t : R, _ <= t -> _ |- _ => apply IH end;
        [exact Ht | subst m; cbn [fst snd]; lra].
    + exfalso. apply H2. lra.
    + pose proof (guess_loop_inside time (fst b, m)) as Hd.
      pose proof (guess_loop_inside t2 (m, snd b)) as Hu.
      cbn [fst snd] in Hd, Hu. unfold midpoint.
      destruct Hd as (? & ? & ?); [subst m; lra |].
      destruct Hu as (? & ? & ?); [subst m; lra |]. lra.
    + match goal with IH : forall t : R, _ <= t -> _ |- _ => apply IH end;
        [exact Ht | subst m; cbn [fst snd]; lra].
  - intros Hb.
    rewrite (guess_loop_eq R_OHMS C_PICO VCC_mV V_TOGGLE_mV t2 b).
    rewrite Heq. lra.
Qed.

(** X6. Whatever the duration, the resistance returned lies in the range
    [MIN_R, MAX_R] of the search. *)
Theorem guessRFromTime_in_range :
  forall time : R,
    (MIN_R <= MAX_R)%N ->
    lo <= guessRFromTime time <= hi.
Proof.
  intros time Hle. rewrite guessRFromTime_midpoint.
  pose proof (unsigned_to_float_le _ _ Hle) as Hb.
  pose proof (guess_loop_inside time (lo, hi)) as H. cbn [fst snd] in H.
  destruct (H Hb) as (H1 & H2 & H3). lra.
Qed.



(** X9. The resistance returned never decreases when the duration grows,
    whatever the circuit. *)
Theorem guessRFromTime_monotone :
  forall t1 t2 : R,
    (MIN_R <= MAX_R)%N ->
    t1 <= t2 ->
    guessRFromTime t1 <= guessRFromTime t2.
Proof.
  intros t1 t2 Hle Ht. rewrite !guessRFromTime_midpoint.
  apply (guess_loop_monotone t1 t2 (lo, hi) Ht).
  exact (unsigned_to_float_le _ _ Hle).
Qed.

(** X10. When the range is more than 2 ohms wide, the bracket the loop ends
    with is more than 1 ohm and at most 2 ohms wide, whatever the duration:
    the value returned is more than half an ohm inside the range. *)
Theorem guessRFromTime_resolution :
  forall time : R,
    hi - lo > 2 ->
    let b := guess_loop time (lo, hi) in
    1 < snd b - fst b <= 2 /\
    lo + 0.5 < guessRFromTime time < hi - 0.5.
Proof.
  intros time Hwide b. subst b. rewrite guessRFromTime_midpoint.
  destruct (guess_loop_exit R_OHMS C_PICO VCC_mV V_TOGGLE_mV time
              (fun b' => 1 < snd b' - fst b')) with (b := (lo, hi)) as [Hw Hg].
  - intros b' Hb' Hgd. rewrite guess_step_width. unfold guess_guard in Hgd. lra.
  - cbn [fst snd]. lra.
  - pose proof (guess_loop_inside time (lo, hi)) as H. cbn [fst snd] in H.
    destruct H as (H1 & H2 & H3); [lra |].
    unfold guess_guard in Hg. lra.
Qed.

End SearchEdges.

(** The example circuit again, searched between 500 and 1000 ohms. *)
Section SearchEdgesExamples.

Import RCThermistor.
Open Scope R_scope.

Local Abbreviation calcT := (RCThermistor.calcT 500 100000 3300 1650).

Lemma example_range : (500 <= 1000)%N.
Proof. discriminate. Qed.




End SearchEdgesExamples.

Lemma guessRFromTime_in_range_witness :
  (500 <= RCThermistor.guessRFromTime 500 100000 3300 1650 500 1000 (-3) <= 1000)%R.
Proof.
  exact (guessRFromTime_in_range 500 100000 3300 1650 500 1000 (-3)%R example_range).
Defined.



Lemma guessRFromTime_monotone_witness :
  (RCThermistor.guessRFromTime 500 100000 3300 1650 500 1000 0
   <= RCThermistor.guessRFromTime 500 100000 3300 1650 500 1000 1)%R.
Proof.
  apply (guessRFromTime_monotone 500 100000 3300 1650 500 1000 0%R 1%R example_range).
  lra.
Defined.

Lemma guessRFromTime_resolution_witness :
  (500.5 < RCThermistor.guessRFromTime 500 100000 3300 1650 500 1000 0 < 999.5)%R.
Proof.
  assert (H : (RCThermistor.unsigned_to_float 1000
               - RCThermistor.unsigned_to_float 500 > 2)%R)
    by (unfold RCThermistor.unsigned_to_float; simpl Z.of_N; lra).
  pose proof (guessRFromTime_resolution 500 100000 3300 1650 500 1000 0%R H) as Hr.
  cbv zeta in Hr. destruct Hr as [_ Hr].
  unfold RCThermistor.unsigned_to_float in Hr. simpl Z.of_N in Hr. lra.
Defined.

(** ** RCThermistor: from resistance to temperature *)

Section Temperature.

Import RCThermistor.
Open Scope R_scope.

Variables R_OHMS C_PICO VCC_mV V_TOGGLE_mV : N.
Variables MIN_R MAX_R : N.
Variables T0_C R0_OHMS BETA : N.
Variables CtoK KtoC : R -> R.
Variable ticks_per_us : Z.

Local Abbreviation lo := (unsigned_to_float MIN_R).
Local Abbreviation hi := (unsigned_to_float MAX_R).
Local Abbreviation T0 := (RCThermistor.T0 T0_C CtoK).
Local Abbreviation R0 := (RCThermistor.R0 R0_OHMS).
Local Abbreviation B := (RCThermistor.B BETA).
Local Abbreviation kelvinFromR := (RCThermistor.kelvinFromR T0_C R0_OHMS BETA CtoK).
Local Abbreviation temperatureFromR :=
  (RCThermistor.temperatureFromR T0_C R0_OHMS BETA CtoK KtoC).
Local Abbreviation guessRFromTime :=
  (RCThermistor.guessRFromTime R_OHMS C_PICO VCC_mV V_TOGGLE_mV MIN_R MAX_R).
Local Abbreviation value :=
  (RCThermistor.value R_OHMS C_PICO VCC_mV V_TOGGLE_mV MIN_R MAX_R
     T0_C R0_OHMS BETA CtoK KtoC ticks_per_us).

(** The denominator of the Beta model, [1/T0 + ln(R/R0)/B]. *)
Let beta_denominator (Rth : R) : R := 1 / T0 + ln (Rth / R0) / B.

Lemma beta_denominator_le (R1 R2 : R) :
  (0 < R0_OHMS)%N -> (0 < BETA)%N -> 0 < R1 -> R1 <= R2 ->
  beta_denominator R1 <= beta_denominator R2.
Proof.
  intros HR0 HB H1 H12. unfold beta_denominator.
  pose proof (unsigned_to_float_pos _ HR0) as HR0'.
  pose proof (unsigned_to_float_pos _ HB) as HB'.
  fold R0 in HR0'. fold B in HB'.
  assert (Hq : 0 < R1 / R0) by (apply Rdiv_lt_0_compat; assumption).
  assert (Hle : R1 / R0 <= R2 / R0).
  { unfold Rdiv. apply Rmult_le_compat_r; [| exact H12].
    left. apply Rinv_0_lt_compat. exact HR0'. }
  pose proof (ln_le_compat _ _ Hq Hle) as Hl.
  apply Rplus_le_compat_l. unfold Rdiv. apply Rmult_le_compat_r; [| exact Hl].
  left. apply Rinv_0_lt_compat. exact HB'.
Qed.

Lemma beta_denominator_lt (R1 R2 : R) :
  (0 < R0_OHMS)%N -> (0 < BETA)%N -> 0 < R1 -> R1 < R2 ->
  beta_denominator R1 < beta_denominator R2.
Proof.
  intros HR0 HB H1 H12. unfold beta_denominator.
  pose proof (unsigned_to_float_pos _ HR0) as HR0'.
  pose proof (unsigned_to_float_pos _ HB) as HB'.
  fold R0 in HR0'. fold B in HB'.
  assert (Hq : 0 < R1 / R0) by (apply Rdiv_lt_0_compat; assumption).
  assert (Hlt : R1 / R0 < R2 / R0).
  { unfold Rdiv. apply Rmult_lt_compat_r; [| exact H12].
    apply Rinv_0_lt_compat. exact HR0'. }
  pose proof (ln_increasing _ _ Hq Hlt) as Hl.
  apply Rplus_lt_compat_l. unfold Rdiv. apply Rmult_lt_compat_r; [| exact Hl].
  apply Rinv_0_lt_compat. exact HB'.
Qed.

Lemma kelvinFromR_le (R1 R2 : R) :
  (0 < R0_OHMS)%N -> (0 < BETA)%N -> 0 < R1 -> R1 <= R2 ->
  0 < beta_denominator R1 ->
  kelvinFromR R2 <= kelvinFromR R1.
Proof.
  intros HR0 HB H1 H12 Hd.
  pose proof (beta_denominator_le R1 R2 HR0 HB H1 H12) as Hle.
  unfold RCThermistor.kelvinFromR. fold (beta_denominator R1) (beta_denominator R2).
  unfold Rdiv. rewrite !Rmult_1_l. apply Rinv_le_contravar; assumption.
Qed.

(** X11. At the resistance [R0] the Kelvin value is [T0]; when [KtoC] undoes
    [CtoK], the temperature returned for [R0] is [T0_C], the temperature the
    thermistor is rated at. *)
Theorem temperatureFromR_at_R0 :
  (0 < R0_OHMS)%N -> (0 < BETA)%N -> 0 < T0 ->
  (forall c, KtoC (CtoK c) = c) ->
  kelvinFromR R0 = T0 /\ temperatureFromR R0 = unsigned_to_float T0_C.
Proof.
  intros HR0 HB HT0 Hinv.
  pose proof (unsigned_to_float_pos _ HR0) as HR0'. fold R0 in HR0'.
  pose proof (unsigned_to_float_pos _ HB) as HB'. fold B in HB'.
  assert (HK : kelvinFromR R0 = T0).
  { unfold RCThermistor.kelvinFromR.
    replace (R0 / R0) with 1 by (field; lra).
    rewrite ln_1. field. split; lra. }
  split; [exact HK |].
  unfold RCThermistor.temperatureFromR. cbv zeta. rewrite HK.
  unfold RCThermistor.T0. apply Hinv.
Qed.

(** X12. Where the Beta model has a positive denominator, a larger
    resistance gives a strictly lower temperature, for any increasing [KtoC]. *)
Theorem temperatureFromR_decreasing :
  forall R1 R2 : R,
    (0 < R0_OHMS)%N -> (0 < BETA)%N ->
    (forall a b, a < b -> KtoC a < KtoC b) ->
    0 < R1 -> R1 < R2 ->
    0 < 1 / T0 + ln (R1 / R0) / B ->
    temperatureFromR R2 < temperatureFromR R1.
Proof.
  intros R1 R2 HR0 HB Hinc H1 H12 Hd.
  pose proof (beta_denominator_lt R1 R2 HR0 HB H1 H12) as Hlt.
  fold (beta_denominator R1) in Hd.
  unfold RCThermistor.temperatureFromR. cbv zeta. apply Hinc.
  unfold RCThermistor.kelvinFromR. fold (beta_denominator R1) (beta_denominator R2).
  unfold Rdiv. rewrite !Rmult_1_l. apply Rinv_lt_contravar; [| exact Hlt].
  apply Rmult_lt_0_compat; lra.
Qed.

(** X13. The temperature [value()] reports is never outside what the ends of
    the search range give: with [0 < MIN_R <= MAX_R] and a positive
    denominator at [MIN_R], it lies between the temperature of [MAX_R] and the
    temperature of [MIN_R], whatever the two recorded times are. *)
Theorem value_within_range_temperatures :
  forall self : RCThermistor.RCThermistor,
    (0 < MIN_R)%N -> (MIN_R <= MAX_R)%N ->
    (0 < R0_OHMS)%N -> (0 < BETA)%N ->
    (forall a b, a <= b -> KtoC a <= KtoC b) ->
    0 < 1 / T0 + ln (lo / R0) / B ->
    temperatureFromR hi <= value self <= temperatureFromR lo.
Proof.
  intros self Hmin Hle HR0 HB Hinc Hd.
  unfold RCThermistor.value. cbv zeta.
  set (duration := seconds ticks_per_us _).
  pose proof (unsigned_to_float_pos _ Hmin) as Hlo.
  pose proof (unsigned_to_float_le _ _ Hle) as Hb.
  rewrite guessRFromTime_midpoint.
  pose proof (guess_loop_inside R_OHMS C_PICO VCC_mV V_TOGGLE_mV duration (lo, hi)) as H.
  cbn [fst snd] in H. destruct (H Hb) as (H1 & H2 & H3).
  set (resistance := 0.5 * _) in *.
  assert (Hres : lo <= resistance <= hi) by (subst resistance; lra).
  fold (beta_denominator lo) in Hd.
  unfold RCThermistor.temperatureFromR. cbv zeta. split; apply Hinc.
  - apply kelvinFromR_le; try assumption; try lra.
    pose proof (beta_denominator_le lo resistance HR0 HB Hlo (proj1 Hres)). lra.
  - apply kelvinFromR_le; try assumption; lra.
Qed.

End Temperature.

(** A 1 kohm thermistor rated at 25 degrees with B = 3950, searched between
    1000 and 2000 ohms; 0 degrees Celsius is 273.15 K. *)
Section TemperatureExamples.

Import RCThermistor.
Open Scope R_scope.


Lemma example_T0_positive : 0 < T0 25 example_CtoK.
Proof. unfold T0, example_CtoK, unsigned_to_float. simpl Z.of_N. lra. Qed.

Lemma example_denominator_positive (x : R) :
  1000 <= x -> 0 < 1 / T0 25 example_CtoK + ln (x / R0 1000) / B 3950.
Proof.
  intros Hx. pose proof example_T0_positive as HT.
  assert (Hl : 0 <= ln (x / R0 1000)).
  { apply ln_nonneg. apply div_ge_1; unfold R0, unsigned_to_float; simpl Z.of_N; lra. }
  assert (HB : 0 < B 3950) by (unfold B, unsigned_to_float; simpl Z.of_N; lra).
  assert (0 < 1 / T0 25 example_CtoK) by (apply Rdiv_lt_0_compat; lra).
  assert (0 <= ln (x / R0 1000) / B 3950).
  { unfold Rdiv. apply Rmult_le_pos; [exact Hl |]. left. apply Rinv_0_lt_compat. exact HB. }
  lra.
Qed.

End TemperatureExamples.

Lemma temperatureFromR_at_R0_witness :
  RCThermistor.temperatureFromR 25 1000 3950 example_CtoK example_KtoC
    (RCThermistor.R0 1000) = 25%R.
Proof.
  assert (Hinv : forall c : R, example_KtoC (example_CtoK c) = c)
    by (intros c; unfold example_KtoC, example_CtoK; lra).
  exact (proj2 (temperatureFromR_at_R0 25 1000 3950 example_CtoK example_KtoC
                  eq_refl eq_refl example_T0_positive Hinv)).
Defined.

Lemma temperatureFromR_decreasing_witness :
  (RCThermistor.temperatureFromR 25 1000 3950 example_CtoK example_KtoC 2000
   < RCThermistor.temperatureFromR 25 1000 3950 example_CtoK example_KtoC 1000)%R.
Proof.
  apply (temperatureFromR_decreasing 25 1000 3950 example_CtoK example_KtoC
           1000%R 2000%R eq_refl eq_refl).
  - intros a b Hab. unfold example_KtoC. lra.
  - lra.
  - lra.
  - apply example_denominator_positive. lra.
Defined.

Lemma value_within_range_temperatures_witness :
  let self := RCThermistor.mkRCThermistor 1000%Z 1045%Z in
  let T := RCThermistor.temperatureFromR 25 1000 3950 example_CtoK example_KtoC in
  (T (RCThermistor.unsigned_to_float 2000)
   <= RCThermistor.value 500 100000 3300 1650 1000 2000 25 1000 3950
        example_CtoK example_KtoC 1 self
   <= T (RCThermistor.unsigned_to_float 1000))%R.
Proof.
  apply (value_within_range_temperatures 500 100000 3300 1650 1000 2000 25 1000 3950
           example_CtoK example_KtoC 1%Z).
  - reflexivity.
  - discriminate.
  - reflexivity.
  - reflexivity.
  - intros a b Hab. unfold example_KtoC. lra.
  - apply example_denominator_positive.
    unfold RCThermistor.unsigned_to_float. simpl Z.of_N. lra.
Defined.

(** ** LinearDeltaCoordMap: the arms *)

(** The algebra behind [xyzeFromMechanical]: carriages at heights [A], [B],
    [C] on towers at distance [r] from the centre, arms of length [L]. *)
Section ArmAlgebra.

Open Scope R_scope.

Variables A B C r L : R.
Hypothesis Hr : 0 < r.

Lemma sqrt3_sq : sqrt 3 * sqrt 3 = 3.
Proof. apply sqrt_sqrt. lra. Qed.

Lemma sqrt3_pos : 0 < sqrt 3.
Proof. apply sqrt_lt_R0. lra. Qed.

(** Squares of the distances from (x, y, z) to the three carriages. *)
Local Abbreviation armA x y z :=
  ((x - 0) * (x - 0) + (y - r) * (y - r) + (z - A) * (z - A)).
Local Abbreviation armB x y z :=
  ((x - sqrt 3 / 2 * r) * (x - sqrt 3 / 2 * r)
   + (y - - (r / 2)) * (y - - (r / 2)) + (z - B) * (z - B)).
Local Abbreviation armC x y z :=
  ((x - - (sqrt 3 / 2 * r)) * (x - - (sqrt 3 / 2 * r))
   + (y - - (r / 2)) * (y - - (r / 2)) + (z - C) * (z - C)).

(** Equal distances fix x and y once z is known, and the other way round. *)
Lemma equidistant_xy (x y z : R) :
  armA x y z = armB x y z -> armB x y z = armC x y z ->
  2 * sqrt 3 * r * x = (B - C) * (B + C - 2 * z) /\
  6 * r * y = - (-2 * A * A + B * B + C * C + 4 * A * z - 2 * B * z - 2 * C * z).
Proof.
  intros HAB HBC.
  pose proof sqrt3_sq as H3. split; nra.
Qed.

Lemma xy_equidistant (x y z : R) :
  2 * sqrt 3 * r * x = (B - C) * (B + C - 2 * z) ->
  6 * r * y = - (-2 * A * A + B * B + C * C + 4 * A * z - 2 * B * z - 2 * C * z) ->
  armA x y z = armB x y z /\ armB x y z = armC x y z.
Proof.
  intros Hx Hy.
  pose proof sqrt3_sq as H3. split; nra.
Qed.

Lemma abs_sq (a : R) : Rabs a * Rabs a = a * a.
Proof. unfold Rabs. destruct (Rcase_abs a); ring. Qed.

Lemma lowest_root (u w W : R) : 0 <= w -> w * w = W -> u * u = W -> - w <= u <= w.
Proof. intros Hw Hww Huu. split; nra. Qed.

(** *** All three differ, or at least B and C do *)

Let S := A * A + B * B - B * C + C * C - A * (B + C).
Let S4 := 4 * S + 9 * r * r.
Let Dn :=
  (A - B) * (A - B) * (A - C) * (A - C) * (B - C) * (B - C)
  + 3 * S * (S - 4 * L * L) * r * r
  + 9 * (2 * S - 3 * L * L) * r * r * r * r
  + 27 * r * r * r * r * r * r.
Let za :=
  (B - C) * r *
  (2 * A * A * A - A * A * (B + C) - A * (B * B + C * C - 3 * r * r)
   + (B + C) * (2 * B * B - 3 * B * C + 2 * C * C + 3 * r * r)).
Let zdiv := (B - C) * r * S4.

Lemma S4_pos : 0 < S4.
Proof.
  unfold S4, S.
  assert (H1 : 0 <= (B - C) * (B - C)) by apply Rle_0_sqr.
  assert (H2 : 0 <= (A - B) * (A - B)) by apply Rle_0_sqr.
  assert (H3 : 0 <= (A - C) * (A - C)) by apply Rle_0_sqr.
  nra.
Qed.

(** With x and y as equal distances make them, the distance to carriage A is
    a quadratic in z, here with its square completed. *)
Lemma armA_quadratic (x y z : R) :
  B <> C ->
  2 * sqrt 3 * r * x = (B - C) * (B + C - 2 * z) ->
  6 * r * y = - (-2 * A * A + B * B + C * C + 4 * A * z - 2 * B * z - 2 * C * z) ->
  armA x y z - L * L =
    S4 / (9 * r * r) * ((z - za / zdiv) * (z - za / zdiv) - (- 3 * Dn / (S4 * S4))).
Proof.
  intros HBC Hx Hy. pose proof S4_pos as HS4. pose proof sqrt3_sq as H3.
  assert (Hxx : x * x = (B - C) * (B - C) * (B + C - 2 * z) * (B + C - 2 * z)
                        / (12 * r * r)).
  { apply (Rmult_eq_reg_l (12 * r * r)); [| nra].
    replace (12 * r * r * (x * x)) with
      ((sqrt 3 * sqrt 3) * ((2 * r * x) * (2 * r * x))) by (rewrite H3; ring).
    replace (sqrt 3 * sqrt 3 * (2 * r * x * (2 * r * x)))
      with ((2 * sqrt 3 * r * x) * (2 * sqrt 3 * r * x)) by ring.
    rewrite Hx. field. lra. }
  assert (Hyy : y = - ((-2 * A * A + B * B + C * C + 4 * A * z - 2 * B * z - 2 * C * z)
                       / (6 * r))).
  { apply (Rmult_eq_reg_l (6 * r)); [| lra]. rewrite Hy. field. lra. }
  replace ((x - 0) * (x - 0)) with (x * x) by ring.
  rewrite Hxx, Hyy. unfold zdiv, za, Dn, S4, S in *.
  field. repeat split; lra.
Qed.


(** The general branch of [xyzeFromMechanical]: if some point is at arm's
    length of the three carriages, so is the point computed, and no such point
    is lower. *)
Lemma general_branch (xq yq zq : R) :
  B <> C ->
  armA xq yq zq = L * L -> armB xq yq zq = L * L -> armC xq yq zq = L * L ->
  let zb :=
    sqrt 3 *
    sqrt (- ((B - C) * (B - C) * r * r *
             ((A - B) * (A - B) * (A - C) * (A - C) * (B - C) * (B - C)
              + 3 * (A * A + B * B - B * C + C * C - A * (B + C))
                  * (A * A + B * B - B * C + C * C - A * (B + C) - 4 * L * L)
                  * r * r
              + 9 * (2 * (A * A + B * B - B * C + C * C - A * (B + C)) - 3 * L * L)
                  * r * r * r * r
              + 27 * r * r * r * r * r * r))) in
  let z := za / zdiv - Rabs (zb / zdiv) in
  let x := ((B - C) * (B + C - 2 * z)) / (2 * sqrt 3 * r) in
  let y := - ((-2 * A * A + B * B + C * C + 4 * A * z - 2 * B * z - 2 * C * z)
              / (6 * r)) in
  armA x y z = L * L /\ armB x y z = L * L /\ armC x y z = L * L /\ z <= zq.
Proof.
  intros HBC HA HB HC zb z x y.
  pose proof S4_pos as HS4. pose proof sqrt3_sq as H3. pose proof sqrt3_pos as Hs3.
  assert (Hzdiv : zdiv <> 0).
  { unfold zdiv. apply Rmult_integral_contrapositive_currified; [| lra].
    apply Rmult_integral_contrapositive_currified; lra. }
  set (W := - 3 * Dn / (S4 * S4)).
  assert (Ha : 0 < S4 / (9 * r * r)) by (apply Rdiv_lt_0_compat; nra).
  (* the point given fixes the discriminant *)
  destruct (equidistant_xy xq yq zq) as [Hxq Hyq]; [lra | lra |].
  pose proof (armA_quadratic xq yq zq HBC Hxq Hyq) as Hq. fold W in Hq.
  assert (HWq : (zq - za / zdiv) * (zq - za / zdiv) = W) by nra.
  assert (HW : 0 <= W) by (rewrite <- HWq; apply Rle_0_sqr).
  (* the root taken *)
  set (w := Rabs (zb / zdiv)) in *.
  assert (Hw0 : 0 <= w) by apply Rabs_pos.
  assert (HD : 0 <= - ((B - C) * (B - C) * r * r * Dn)).
  { replace (- ((B - C) * (B - C) * r * r * Dn))
      with ((B - C) * (B - C) * (r * r) * (S4 * S4) * W / 3)
      by (unfold W; field; lra).
    assert (H1 : 0 <= (B - C) * (B - C)) by apply Rle_0_sqr.
    assert (H2 : 0 <= r * r) by apply Rle_0_sqr.
    assert (H4 : 0 <= S4 * S4) by apply Rle_0_sqr.
    apply Rmult_le_pos; [| lra].
    apply Rmult_le_pos; [apply Rmult_le_pos; [apply Rmult_le_pos |] |];
      assumption. }
  assert (Hww : w * w = W).
  { unfold w. rewrite abs_sq. unfold zb. fold S S4 Dn.
    replace (sqrt 3 * sqrt (- ((B - C) * (B - C) * r * r * Dn)) / zdiv
             * (sqrt 3 * sqrt (- ((B - C) * (B - C) * r * r * Dn)) / zdiv))
      with ((sqrt 3 * sqrt 3)
            * (sqrt (- ((B - C) * (B - C) * r * r * Dn))
               * sqrt (- ((B - C) * (B - C) * r * r * Dn)))
            / (zdiv * zdiv)) by (field; exact Hzdiv).
    rewrite H3, (sqrt_sqrt _ HD). unfold W, zdiv. field.
    repeat split; lra. }
  (* the point computed *)
  assert (Hx : 2 * sqrt 3 * r * x = (B - C) * (B + C - 2 * z))
    by (unfold x; field; lra).
  assert (Hy : 6 * r * y
               = - (-2 * A * A + B * B + C * C + 4 * A * z - 2 * B * z - 2 * C * z))
    by (unfold y; field; lra).
  destruct (xy_equidistant x y z Hx Hy) as [HAB' HBC'].
  pose proof (armA_quadratic x y z HBC Hx Hy) as Hz. fold W in Hz.
  assert (HA' : armA x y z = L * L).
  { replace ((z - za / zdiv) * (z - za / zdiv)) with (w * w) in Hz
      by (unfold z; ring).
    rewrite Hww in Hz. lra. }
  repeat split; try lra.
  destruct (lowest_root (zq - za / zdiv) w W Hw0 Hww HWq) as [Hlow _].
  unfold z. lra.
Qed.

(** *** B and C equal, A apart *)

Lemma two_equal_quadratic (y z : R) :
  A <> B ->
  3 * r * y = (A - B) * (A + B - 2 * z) ->
  let ydiv := 2 * (4 * A * A - 8 * A * B + 4 * B * B + 9 * r * r) in
  let ya := 2 * (A - B) * (A - B) * r in
  let F := (- (A - B)) * (A - B) * (A - B) * (A - B)
           + 4 * (A - B) * (A - B) * L * L
           + 3 * (-2 * (A - B) * (A - B) + 3 * L * L) * r * r
           - 9 * r * r * r * r in
  let t := (A + B - 2 * z) / (3 * r) in
  armA 0 y z - L * L =
    ((A - B) * (A - B) + 9 * r * r / 4)
    * ((t - ya / ydiv / (A - B)) * (t - ya / ydiv / (A - B)) - 16 * F / (ydiv * ydiv)).
Proof.
  intros HAB Hy ydiv ya F t.
  assert (Hyy : y = (A - B) * (A + B - 2 * z) / (3 * r)).
  { apply (Rmult_eq_reg_l (3 * r)); [| lra]. rewrite Hy. field. lra. }
  assert (Hyd : 0 < 4 * A * A - 8 * A * B + 4 * B * B + 9 * r * r) by nra.
  rewrite Hyy. unfold t, ydiv, ya, F.
  field. repeat split; lra.
Qed.

Lemma two_equal_branch (xq yq zq : R) :
  B = C -> A <> B ->
  armA xq yq zq = L * L -> armB xq yq zq = L * L -> armC xq yq zq = L * L ->
  let ydiv := 2 * (4 * A * A - 8 * A * B + 4 * B * B + 9 * r * r) in
  let ya := 2 * (A - B) * (A - B) * r in
  let yb :=
    4 * sqrt ((A - B) * (A - B) *
              ((- (A - B)) * (A - B) * (A - B) * (A - B)
               + 4 * (A - B) * (A - B) * L * L
               + 3 * (-2 * (A - B) * (A - B) + 3 * L * L) * r * r
               - 9 * r * r * r * r)) in
  let com1 := Rabs (yb / ((A - B) * ydiv)) in
  let com2 := ya / ydiv in
  let z := 0.5 * (A + B - 3 * r * (com2 / (A - B) + com1)) in
  let y := com2 + (A - B) * com1 in
  armA 0 y z = L * L /\ armB 0 y z = L * L /\ armC 0 y z = L * L /\ z <= zq.
Proof.
  intros HBC HAB HA HB HC ydiv ya yb com1 com2 z y.
  pose proof sqrt3_sq as H3. pose proof sqrt3_pos as Hs3.
  assert (Hyd : 0 < ydiv) by (unfold ydiv; nra).
  assert (Hd : A - B <> 0) by lra.
  set (F := (- (A - B)) * (A - B) * (A - B) * (A - B)
            + 4 * (A - B) * (A - B) * L * L
            + 3 * (-2 * (A - B) * (A - B) + 3 * L * L) * r * r
            - 9 * r * r * r * r) in *.
  set (V := 16 * F / (ydiv * ydiv)).
  set (k := (A - B) * (A - B) + 9 * r * r / 4).
  assert (Hk : 0 < k) by (unfold k; nra).
  (* the point given *)
  assert (Hxq : xq = 0).
  { rewrite <- HBC in HC.
    assert (sqrt 3 * r * xq = 0) by nra.
    assert (sqrt 3 * r <> 0) by nra.
    apply (Rmult_eq_reg_l (sqrt 3 * r)); [lra | assumption]. }
  assert (Hyq : 3 * r * yq = (A - B) * (A + B - 2 * zq)).
  { rewrite Hxq in HA, HB. nra. }
  rewrite Hxq in HA.
  pose proof (two_equal_quadratic yq zq HAB Hyq) as Hq. cbv zeta in Hq.
  fold ydiv ya F V k in Hq. fold com2 in Hq.
  set (tq := (A + B - 2 * zq) / (3 * r)) in *.
  assert (HVq : (tq - com2 / (A - B)) * (tq - com2 / (A - B)) = V) by nra.
  assert (HV : 0 <= V) by (rewrite <- HVq; apply Rle_0_sqr).
  assert (HF : 0 <= F).
  { replace F with (V * (ydiv * ydiv) / 16) by (unfold V; field; lra).
    apply Rmult_le_pos; [| lra]. apply Rmult_le_pos; [exact HV | nra]. }
  (* the root taken *)
  assert (Hv0 : 0 <= com1) by apply Rabs_pos.
  assert (Hvv : com1 * com1 = V).
  { unfold com1. rewrite abs_sq. unfold yb. fold F.
    assert (HE : 0 <= (A - B) * (A - B) * F)
      by (apply Rmult_le_pos; [apply Rle_0_sqr | exact HF]).
    replace (4 * sqrt ((A - B) * (A - B) * F) / ((A - B) * ydiv)
             * (4 * sqrt ((A - B) * (A - B) * F) / ((A - B) * ydiv)))
      with (16 * (sqrt ((A - B) * (A - B) * F) * sqrt ((A - B) * (A - B) * F))
            / ((A - B) * (A - B) * (ydiv * ydiv))) by (field; lra).
    rewrite (sqrt_sqrt _ HE). unfold V. field. lra. }
  (* the point computed *)
  assert (Hy : 3 * r * y = (A - B) * (A + B - 2 * z)).
  { unfold y, z. replace 0.5 with (1 / 2) by lra. field. exact Hd. }
  pose proof (two_equal_quadratic y z HAB Hy) as Hz. cbv zeta in Hz.
  fold ydiv ya F V k in Hz. fold com2 in Hz.
  assert (Ht : (A + B - 2 * z) / (3 * r) - com2 / (A - B) = com1)
    by (unfold z; replace 0.5 with (1 / 2) by lra; field; lra).
  rewrite Ht, Hvv in Hz.
  assert (HA' : armA 0 y z = L * L) by lra.
  assert (HB' : armB 0 y z = armA 0 y z) by nra.
  assert (HC' : armC 0 y z = armB 0 y z) by (rewrite <- HBC; ring).
  repeat split; try lra.
  destruct (lowest_root (tq - com2 / (A - B)) com1 V Hv0 Hvv HVq) as [_ Hup].
  assert (Hzq : zq = 0.5 * (A + B - 3 * r * tq)) by (unfold tq; replace 0.5 with (1 / 2) by lra; field; lra).
  rewrite Hzq. unfold z. nra.
Qed.

(** *** All three equal *)

Lemma equal_branch (xq yq zq : R) :
  A = B -> B = C ->
  armA xq yq zq = L * L -> armB xq yq zq = L * L -> armC xq yq zq = L * L ->
  let z := A - sqrt (L * L - r * r) in
  armA 0 0 z = L * L /\ armB 0 0 z = L * L /\ armC 0 0 z = L * L /\ z <= zq.
Proof.
  intros HAB HBC HA HB HC z.
  pose proof sqrt3_sq as H3. pose proof sqrt3_pos as Hs3.
  assert (Hxq : xq = 0).
  { rewrite <- HBC in HC.
    assert (sqrt 3 * r * xq = 0) by nra.
    assert (sqrt 3 * r <> 0) by nra.
    apply (Rmult_eq_reg_l (sqrt 3 * r)); [lra | assumption]. }
  assert (Hyq : yq = 0).
  { rewrite Hxq in HA, HB. rewrite <- HAB in HB.
    assert (r * yq = 0) by nra.
    apply (Rmult_eq_reg_l r); lra. }
  rewrite Hxq, Hyq in HA.
  assert (Hs : L * L - r * r = (zq - A) * (zq - A)) by lra.
  assert (Hs0 : 0 <= L * L - r * r) by (rewrite Hs; apply Rle_0_sqr).
  pose proof (sqrt_sqrt _ Hs0) as Hss.
  pose proof (sqrt_pos (L * L - r * r)) as Hsp.
  unfold z. rewrite <- HBC, <- HAB.
  repeat split; try nra.
Qed.

End ArmAlgebra.

(** ** LinearDeltaCoordMap: [xyzeFromMechanical] against the arms *)

Section ArmLengths.

Import LinearDeltaCoordMap.
Open Scope R_scope.

(** X14. [xyzeFromMechanical] solves the machine the header of the file
    describes. Whenever the carriage heights can be reached at all, that is
    some point [q] is at distance [L] of the three carriages, the function
    returns a point that is at distance [L] of the three carriages too, and it
    is the lower of the two such points: no [q] is below it. *)
Theorem xyzeFromMechanical_arm_lengths :
  forall (self : LinearDeltaCoordMap) (mech : array4) (xq yq zq eq' : R),
    0 < r self ->
    arm_sq self mech DELTA_AXIS_A (xq, yq, zq, eq') = L self * L self ->
    arm_sq self mech DELTA_AXIS_B (xq, yq, zq, eq') = L self * L self ->
    arm_sq self mech DELTA_AXIS_C (xq, yq, zq, eq') = L self * L self ->
    exists x y z : R,
      xyzeFromMechanical self mech
        = Some (x, y, z, IZR (at_axis mech DELTA_AXIS_E) * MM_STEPS_EXT self) /\
      arm_sq self mech DELTA_AXIS_A (x, y, z, 0) = L self * L self /\
      arm_sq self mech DELTA_AXIS_B (x, y, z, 0) = L self * L self /\
      arm_sq self mech DELTA_AXIS_C (x, y, z, 0) = L self * L self /\
      z <= zq.
Proof.
  intros self mech xq yq zq eq' Hr.
  cbv beta iota zeta delta [arm_sq tower_xy height].
  unfold xyzeFromMechanical. cbv zeta.
  set (A := IZR (at_axis mech DELTA_AXIS_A) * MM_STEPS self).
  set (B := IZR (at_axis mech DELTA_AXIS_B) * MM_STEPS self).
  set (C := IZR (at_axis mech DELTA_AXIS_C) * MM_STEPS self).
  intros HA HB HC.
  assert (Hsqrt3 : 0 < sqrt 3) by (apply sqrt_lt_R0; lra).
  destruct (Reqb B C) eqn:HBC.
  - apply Reqb_eq in HBC.
    destruct (Reqb A B) eqn:HAB; cbn [andb].
    + apply Reqb_eq in HAB.
      do 3 eexists. split; [reflexivity |].
      exact (equal_branch A B C (r self) (L self) Hr xq yq zq HAB HBC HA HB HC).
    + apply Reqb_neq in HAB.
      assert (Hydiv : 2 * (4 * A * A - 8 * A * B + 4 * B * B + 9 * r self * r self) <> 0)
        by nra.
      assert (HAB' : A - B <> 0) by lra.
      rewrite (checked_div_some _ _ (Rmult_integral_contrapositive_currified _ _ HAB' Hydiv)).
      rewrite (checked_div_some _ _ Hydiv).
      rewrite (checked_div_some _ _ HAB').
      do 3 eexists. split; [reflexivity |].
      exact (two_equal_branch A B C (r self) (L self) Hr xq yq zq HBC HAB HA HB HC).
  - rewrite andb_false_r.
    apply Reqb_neq in HBC.
    pose proof (spread_positive A B C HBC) as Hs.
    assert (HBC' : B - C <> 0) by lra.
    assert (Hr' : r self <> 0) by lra.
    assert (Hq : 4 * (A * A + B * B - B * C + C * C - A * (B + C)) + 9 * r self * r self <> 0)
      by nra.
    assert (Hzdiv : (B - C) * r self *
                    (4 * (A * A + B * B - B * C + C * C - A * (B + C))
                     + 9 * r self * r self) <> 0).
    { apply Rmult_integral_contrapositive_currified; [| exact Hq].
      apply Rmult_integral_contrapositive_currified; assumption. }
    assert (H2 : 2 * sqrt 3 * r self <> 0).
    { apply Rmult_integral_contrapositive_currified; [lra | exact Hr']. }
    assert (H6 : 6 * r self <> 0) by lra.
    rewrite !(checked_div_some _ _ Hzdiv).
    rewrite (checked_div_some _ _ H2).
    rewrite (checked_div_some _ _ H6).
    do 3 eexists. split; [reflexivity |].
    exact (general_branch A B C (r self) (L self) Hr xq yq zq HBC HA HB HC).
Qed.

(** Rails at 4 mm, arms of 5 mm, one step per mm; the carriages at 4, 2 and
    2 mm are reached from (0, 1, 0). *)
Lemma xyzeFromMechanical_arm_lengths_witness :
  let self := new 4 5 10 85 1 1 in
  let mech := (4, 2, 2, 0)%Z in
  exists x y z : R,
    xyzeFromMechanical self mech
      = Some (x, y, z, IZR (at_axis mech DELTA_AXIS_E) * MM_STEPS_EXT self) /\
    arm_sq self mech DELTA_AXIS_A (x, y, z, 0) = L self * L self /\
    arm_sq self mech DELTA_AXIS_B (x, y, z, 0) = L self * L self /\
    arm_sq self mech DELTA_AXIS_C (x, y, z, 0) = L self * L self /\
    z <= 0.
Proof.
  cbv zeta.
  apply (xyzeFromMechanical_arm_lengths (new 4 5 10 85 1 1) (4, 2, 2, 0)%Z 0 1 0 0).
  - unfold new. cbn [r]. lra.
  - cbv beta iota zeta delta [arm_sq tower_xy height new r L MM_STEPS at_axis]. lra.
  - cbv beta iota zeta delta [arm_sq tower_xy height new r L MM_STEPS at_axis].
    pose proof sqrt3_sq. nra.
  - cbv beta iota zeta delta [arm_sq tower_xy height new r L MM_STEPS at_axis].
    pose proof sqrt3_sq. nra.
Defined.

Close Scope R_scope.

End ArmLengths.

(** ** LinearDeltaCoordMap: homing and the units *)

Section Homing.

Import LinearDeltaCoordMap.
Open Scope R_scope.

Lemma truncate_nonneg (x : R) :
  0 <= x -> IZR (truncate x) <= x < IZR (truncate x) + 1 /\ (0 <= truncate x)%Z.
Proof.
  intros Hx. unfold truncate. destruct (Rle_dec 0 x) as [_ | Hn]; [| contradiction].
  split; [apply Zfloor_bound |]. apply Zfloor_lub. exact Hx.
Qed.

Lemma float_to_int_nonneg (x : R) :
  0 <= x -> x < 2147483648 -> float_to_int x = Some (truncate x).
Proof.
  intros Hx Hlt. unfold float_to_int.
  destruct (truncate_nonneg x Hx) as [[Hlo _] H0].
  assert (Hup : (truncate x < 2147483648)%Z) by (apply lt_IZR; lra).
  replace (- 2 ^ 31 <=? truncate x)%Z with true by (symmetry; apply Z.leb_le; lia).
  replace (truncate x <=? 2 ^ 31 - 1)%Z with true by (symmetry; apply Z.leb_le; lia).
  reflexivity.
Qed.

(** X15. Homing and then reading the position back. On a machine made by the
    constructor with a positive number of steps per mm and a height whose step
    count fits an [int], [getHomePosition] puts the three carriages at the same
    count and keeps the extruder's; [xyzeFromMechanical] of that position is on
    the axis of the machine (x = 0, y = 0), at a z that is at most
    [h - sqrt(L^2 - r^2)] and less than one step below it. *)
Theorem getHomePosition_is_on_axis :
  forall (r0 L0 h0 b0 s se : R) (cur : array4),
    0 < s -> 0 <= h0 -> h0 * s < 2147483648 ->
    let self := new r0 L0 h0 b0 s se in
    exists (n : Z) (z : R),
      getHomePosition self cur = Some (n, n, n, at_axis cur DELTA_AXIS_E) /\
      xyzeFromMechanical self (n, n, n, at_axis cur DELTA_AXIS_E)
        = Some (0, 0, z, IZR (at_axis cur DELTA_AXIS_E) * (1 / se)) /\
      h0 - 1 / s - sqrt (L0 * L0 - r0 * r0) < z <= h0 - sqrt (L0 * L0 - r0 * r0).
Proof.
  intros r0 L0 h0 b0 s se cur Hs Hh Hfit self.
  assert (Hx : 0 <= h0 * s) by (apply Rmult_le_pos; lra).
  exists (truncate (h0 * s)).
  exists (IZR (truncate (h0 * s)) * (1 / s) - sqrt (L0 * L0 - r0 * r0)).
  split; [| split].
  - unfold getHomePosition, self, new. cbn [h STEPS_MM].
    rewrite (float_to_int_nonneg _ Hx Hfit). reflexivity.
  - unfold xyzeFromMechanical. cbv zeta. cbn [at_axis].
    rewrite (Reqb_true _ _ eq_refl). cbn [andb].
    unfold self, new. cbn [L r MM_STEPS MM_STEPS_EXT]. reflexivity.
  - destruct (truncate_nonneg _ Hx) as [[Hlo Hhi] _].
    assert (Hi : 0 < 1 / s) by (apply Rdiv_lt_0_compat; lra).
    assert (H1 : IZR (truncate (h0 * s)) * (1 / s) <= h0).
    { replace h0 with (h0 * s * (1 / s)) at 2 by (field; lra).
      apply Rmult_le_compat_r; lra. }
    assert (H2 : h0 - 1 / s < IZR (truncate (h0 * s)) * (1 / s)).
    { replace (h0 - 1 / s) with ((h0 * s - 1) * (1 / s)) by (field; lra).
      apply Rmult_lt_compat_r; lra. }
    lra.
Qed.

(** On [small_delta] the towers are 10 mm high at 2 steps per mm: home is at
    20 steps, 6 mm above the bed. *)
Lemma getHomePosition_is_on_axis_witness :
  exists (n : Z) (z : R),
    getHomePosition (new 3 5 10 85 2 1) (0, 0, 0, 7)%Z = Some (n, n, n, 7%Z) /\
    xyzeFromMechanical (new 3 5 10 85 2 1) (n, n, n, 7%Z) = Some (0, 0, z, 7 * (1 / 1)) /\
    10 - 1 / 2 - sqrt (5 * 5 - 3 * 3) < z <= 10 - sqrt (5 * 5 - 3 * 3).
Proof.
  apply (getHomePosition_is_on_axis 3 5 10 85 2 1 (0, 0, 0, 7)%Z); lra.
Defined.

(** X16. Steps to mm and back. On a machine made by the constructor with
    nonzero steps per mm, a count converted with [MM_STEPS(axisIdx)] and back
    with [STEPS_MM(axisIdx)] is the count again, for every index; index 3
    selects the extruder's values and every other index, also one beyond the
    four axes, the towers'. *)
Theorem STEPS_MM_round_trip :
  forall (r0 L0 h0 b0 s se : R) (axisIdx : N) (n : Z),
    s <> 0 -> se <> 0 ->
    let self := new r0 L0 h0 b0 s se in
    IZR n * MM_STEPS_at self axisIdx * STEPS_MM_at self axisIdx = IZR n /\
    STEPS_MM_at self axisIdx = (if N.eqb axisIdx 3 then se else s).
Proof.
  intros r0 L0 h0 b0 s se axisIdx n Hs Hse self.
  unfold MM_STEPS_at, STEPS_MM_at, self, new, axis_index.
  cbn [STEPS_MM MM_STEPS STEPS_MM_EXT MM_STEPS_EXT].
  destruct (N.eqb axisIdx 3); split; try reflexivity; field; assumption.
Qed.

Lemma STEPS_MM_round_trip_witness :
  IZR 40 * MM_STEPS_at small_delta 7 * STEPS_MM_at small_delta 7 = IZR 40 /\
  STEPS_MM_at small_delta 7 = 2.
Proof.
  apply (STEPS_MM_round_trip 3 5 10 85 2 1 7%N 40%Z); lra.
Defined.

Close Scope R_scope.

End Homing.

(** ** LinearDeltaCoordMap: symmetries of [xyzeFromMechanical] *)

Section KinematicSymmetries.

Import LinearDeltaCoordMap.
Open Scope R_scope.

Lemma Reqb_shift (a b d : R) : Reqb (a + d) (b + d) = Reqb a b.
Proof.
  unfold Reqb. destruct (Req_dec_T a b), (Req_dec_T (a + d) (b + d));
    try reflexivity; exfalso; lra.
Qed.

Lemma Reqb_sym (a b : R) : Reqb a b = Reqb b a.
Proof.
  unfold Reqb. destruct (Req_dec_T a b), (Req_dec_T b a);
    try reflexivity; exfalso; auto.
Qed.

Lemma xyze_eq (x y z e x' y' z' e' : R) :
  x = x' -> y = y' -> z = z' -> e = e' ->
  Some (x, y, z, e) = Some (x', y', z', e').
Proof. intros -> -> -> ->. reflexivity. Qed.

(** X17. Moving the three carriages by the same number of steps moves the
    effector straight up or down: x, y and e are the same and z changes by
    that number of steps in mm. *)
Theorem xyzeFromMechanical_lift :
  forall (self : LinearDeltaCoordMap) (a b c e k : Z),
    r self <> 0 ->
    exists x y z e' : R,
      xyzeFromMechanical self (a, b, c, e) = Some (x, y, z, e') /\
      xyzeFromMechanical self (a + k, b + k, c + k, e)%Z
        = Some (x, y, z + IZR k * MM_STEPS self, e').
Proof.
  intros self a b c e k Hr. unfold xyzeFromMechanical. cbv zeta. cbn [at_axis].
  set (A := IZR a * MM_STEPS self).
  set (B := IZR b * MM_STEPS self).
  set (C := IZR c * MM_STEPS self).
  set (d := IZR k * MM_STEPS self).
  replace (IZR (a + k) * MM_STEPS self) with (A + d)
    by (rewrite plus_IZR; unfold A, d; ring).
  replace (IZR (b + k) * MM_STEPS self) with (B + d)
    by (rewrite plus_IZR; unfold B, d; ring).
  replace (IZR (c + k) * MM_STEPS self) with (C + d)
    by (rewrite plus_IZR; unfold C, d; ring).
  rewrite !Reqb_shift.
  assert (Hsqrt3 : 0 < sqrt 3) by (apply sqrt_lt_R0; lra).
  assert (Hrr : 0 < r self * r self) by nra.
  destruct (Reqb B C) eqn:HBC.
  - destruct (Reqb A B) eqn:HAB; cbn [andb].
    + do 4 eexists. split; [reflexivity |]. apply xyze_eq; try reflexivity. ring.
    + apply Reqb_neq in HAB.
      assert (Hydiv : 2 * (4 * A * A - 8 * A * B + 4 * B * B + 9 * r self * r self) <> 0)
        by nra.
      assert (HAB' : A - B <> 0) by lra.
      assert (Hydiv' : 2 * (4 * (A + d) * (A + d) - 8 * (A + d) * (B + d)
                            + 4 * (B + d) * (B + d) + 9 * r self * r self) <> 0)
        by nra.
      assert (HABd : A + d - (B + d) <> 0) by lra.
      rewrite (checked_div_some _ _ (Rmult_integral_contrapositive_currified _ _ HAB' Hydiv)).
      rewrite (checked_div_some _ _ Hydiv).
      rewrite (checked_div_some _ _ HAB').
      rewrite (checked_div_some _ _ (Rmult_integral_contrapositive_currified _ _ HABd Hydiv')).
      rewrite (checked_div_some _ _ Hydiv').
      rewrite (checked_div_some _ _ HABd).
      do 4 eexists. split; [reflexivity |].
      replace (A + d - (B + d)) with (A - B) by ring.
      replace (4 * (A + d) * (A + d) - 8 * (A + d) * (B + d) + 4 * (B + d) * (B + d))
        with (4 * A * A - 8 * A * B + 4 * B * B) by ring.
      apply xyze_eq; try reflexivity.
      replace 0.5 with (1 / 2) by lra. field. split; lra.
  - rewrite !andb_false_r.
    apply Reqb_neq in HBC.
    pose proof (spread_positive A B C HBC) as Hs.
    assert (HBC' : B - C <> 0) by lra.
    assert (Hq : 4 * (A * A + B * B - B * C + C * C - A * (B + C)) + 9 * r self * r self <> 0)
      by nra.
    assert (Hzdiv : (B - C) * r self *
                    (4 * (A * A + B * B - B * C + C * C - A * (B + C))
                     + 9 * r self * r self) <> 0).
    { apply Rmult_integral_contrapositive_currified; [| exact Hq].
      apply Rmult_integral_contrapositive_currified; assumption. }
    assert (H2 : 2 * sqrt 3 * r self <> 0).
    { apply Rmult_integral_contrapositive_currified; [lra | exact Hr]. }
    assert (H6 : 6 * r self <> 0) by lra.
    assert (Hsp : (A + d) * (A + d) + (B + d) * (B + d) - (B + d) * (C + d)
                  + (C + d) * (C + d) - (A + d) * (B + d + (C + d))
                  = A * A + B * B - B * C + C * C - A * (B + C)) by ring.
    rewrite Hsp.
    replace (B + d - (C + d)) with (B - C) by ring.
    replace (A + d - (B + d)) with (A - B) by ring.
    replace (A + d - (C + d)) with (A - C) by ring.
    rewrite !(checked_div_some _ _ Hzdiv).
    rewrite !(checked_div_some _ _ H2).
    rewrite !(checked_div_some _ _ H6).
    do 4 eexists. split; [reflexivity |].
    match goal with
    | |- context [?p / ?q - Rabs ?w] =>
        match p with
        | context [d] =>
            replace (p / q) with
              ((B - C) * r self *
               (2 * A * A * A - A * A * (B + C) - A * (B * B + C * C - 3 * r self * r self)
                + (B + C) * (2 * B * B - 3 * B * C + 2 * C * C + 3 * r self * r self))
               / q + d)
              by (field; repeat split; assumption || lra)
        end
    end.
    match goal with
    | |- context [?q + d - Rabs ?t] => set (q0 := q); set (w := Rabs t)
    end.
    apply xyze_eq; try reflexivity.
    + f_equal. ring.
    + f_equal. f_equal. ring.
    + ring.
Qed.

(** Two steps per mm: 10 steps more on each tower are 5 mm more in z. *)
Lemma xyzeFromMechanical_lift_witness :
  exists x y z e' : R,
    xyzeFromMechanical small_delta (0, 2, 4, 0)%Z = Some (x, y, z, e') /\
    xyzeFromMechanical small_delta (0 + 10, 2 + 10, 4 + 10, 0)%Z
      = Some (x, y, z + IZR 10 * MM_STEPS small_delta, e').
Proof.
  apply (xyzeFromMechanical_lift small_delta 0 2 4 0 10).
  unfold small_delta, new. cbn [r]. lra.
Defined.

(** X18. Exchanging the carriages of towers B and C mirrors the effector in
    the plane through tower A and the axis: x changes sign, y, z and e are the
    same. *)
Theorem xyzeFromMechanical_mirror :
  forall (self : LinearDeltaCoordMap) (a b c e : Z),
    r self <> 0 ->
    exists x y z e' : R,
      xyzeFromMechanical self (a, b, c, e) = Some (x, y, z, e') /\
      xyzeFromMechanical self (a, c, b, e) = Some (- x, y, z, e').
Proof.
  intros self a b c e Hr. unfold xyzeFromMechanical. cbv zeta. cbn [at_axis].
  set (A := IZR a * MM_STEPS self).
  set (B := IZR b * MM_STEPS self).
  set (C := IZR c * MM_STEPS self).
  clearbody A B C.
  assert (Hsqrt3 : 0 < sqrt 3) by (apply sqrt_lt_R0; lra).
  assert (Hrr : 0 < r self * r self) by nra.
  rewrite (Reqb_sym C B).
  destruct (Reqb B C) eqn:HBC.
  - apply Reqb_eq in HBC. subst C.
    destruct (Reqb A B) eqn:HAB; cbn [andb].
    + do 4 eexists. split; [reflexivity |]. apply xyze_eq; try reflexivity. ring.
    + apply Reqb_neq in HAB.
      assert (Hydiv : 2 * (4 * A * A - 8 * A * B + 4 * B * B + 9 * r self * r self) <> 0)
        by nra.
      assert (HAB' : A - B <> 0) by lra.
      rewrite (checked_div_some _ _ (Rmult_integral_contrapositive_currified _ _ HAB' Hydiv)).
      rewrite (checked_div_some _ _ Hydiv).
      rewrite (checked_div_some _ _ HAB').
      do 4 eexists. split; [reflexivity |]. apply xyze_eq; try reflexivity. ring.
  - rewrite !andb_false_r.
    apply Reqb_neq in HBC.
    pose proof (spread_positive A B C HBC) as Hs.
    assert (HBC' : B - C <> 0) by lra.
    assert (HCB' : C - B <> 0) by lra.
    assert (Hq : 4 * (A * A + B * B - B * C + C * C - A * (B + C)) + 9 * r self * r self <> 0)
      by nra.
    assert (Hzdiv : (B - C) * r self *
                    (4 * (A * A + B * B - B * C + C * C - A * (B + C))
                     + 9 * r self * r self) <> 0).
    { apply Rmult_integral_contrapositive_currified; [| exact Hq].
      apply Rmult_integral_contrapositive_currified; assumption. }
    assert (Hzdiv' : (C - B) * r self *
                     (4 * (A * A + B * B - B * C + C * C - A * (B + C))
                      + 9 * r self * r self) <> 0).
    { apply Rmult_integral_contrapositive_currified; [| exact Hq].
      apply Rmult_integral_contrapositive_currified; assumption. }
    assert (H2 : 2 * sqrt 3 * r self <> 0).
    { apply Rmult_integral_contrapositive_currified; [lra | exact Hr]. }
    assert (H6 : 6 * r self <> 0) by lra.
    replace (A * A + C * C - C * B + B * B - A * (C + B))
      with (A * A + B * B - B * C + C * C - A * (B + C)) by ring.
    replace ((C - B) * (C - B) * r self * r self)
      with ((B - C) * (B - C) * r self * r self) by ring.
    replace ((A - C) * (A - C) * (A - B) * (A - B) * (C - B) * (C - B))
      with ((A - B) * (A - B) * (A - C) * (A - C) * (B - C) * (B - C)) by ring.
    rewrite !(checked_div_some _ _ Hzdiv).
    rewrite !(checked_div_some _ _ Hzdiv').
    rewrite !(checked_div_some _ _ H2).
    rewrite !(checked_div_some _ _ H6).
    do 4 eexists. split; [reflexivity |].
    match goal with
    | |- Some (_, _, ?q1' - Rabs (?zb / ?zdiv'), _)
         = Some (_, _, ?q1 - Rabs (?zb / ?zdiv), _) =>
        replace q1' with q1 by (field; repeat split; assumption || lra);
        replace (Rabs (zb / zdiv')) with (Rabs (zb / zdiv))
          by (rewrite <- (Rabs_Ropp (zb / zdiv)); f_equal; field;
              repeat split; assumption || lra);
        set (z := q1 - Rabs (zb / zdiv))
    end.
    apply xyze_eq; try reflexivity.
    + field. lra.
    + f_equal. f_equal. ring.
Qed.

Lemma xyzeFromMechanical_mirror_witness :
  exists x y z e' : R,
    xyzeFromMechanical small_delta (0, 2, 4, 0)%Z = Some (x, y, z, e') /\
    xyzeFromMechanical small_delta (0, 4, 2, 0)%Z = Some (- x, y, z, e').
Proof.
  apply (xyzeFromMechanical_mirror small_delta 0 2 4 0).
  unfold small_delta, new. cbn [r]. lra.
Defined.

Close Scope R_scope.

End KinematicSymmetries.

(** ** logging: the switches *)

Section LoggingSwitches.

Import logging.

Variable DO_LOG : bool.

Lemma call_keeps_info_off (c : Call) (s : Logger) :
  isInfoEnabled DO_LOG s = false ->
  isInfoEnabled DO_LOG (call DO_LOG c s) = false /\
  stderr (call DO_LOG c s) = stderr s.
Proof.
  destruct s as [i d v out err].
  unfold isInfoEnabled. destruct DO_LOG; [| destruct c; intros _; split; reflexivity].
  cbn [_info]. intros ->.
  destruct c; split; try reflexivity;
    cbv [call LOGE LOGW LOG LOGD LOGV enableDebug enableVerbose disable
         isInfoEnabled isDebugEnabled isVerboseEnabled printf fprintf_stderr
         _info _debug _verbose stdout stderr];
    try reflexivity; destruct d; try reflexivity; destruct v; reflexivity.
Qed.

(** X19. Nothing in the header turns information logging on. Once
    [isInfoEnabled] answers false it answers false after any sequence of
    calls, whatever that sequence enables; and since [LOGE] is the only writer
    of the error stream, that stream receives nothing more. *)
Theorem info_logging_never_turned_on :
  forall (cs : list Call) (s : Logger),
    isInfoEnabled DO_LOG s = false ->
    isInfoEnabled DO_LOG (run DO_LOG cs s) = false /\
    stderr (run DO_LOG cs s) = stderr s.
Proof.
  induction cs as [| c cs IH]; intros s Hs; cbn [run].
  - split; [exact Hs | reflexivity].
  - destruct (call_keeps_info_off c s Hs) as [Hi He].
    destruct (IH _ Hi) as [Hi' He'].
    split; [exact Hi' | rewrite He'; exact He].
Qed.

Lemma macro_after_disable (c : Call) (s : Logger) :
  is_macro c = true ->
  isInfoEnabled DO_LOG s = false ->
  isDebugEnabled DO_LOG s = false ->
  isVerboseEnabled DO_LOG s = false ->
  call DO_LOG c s = s.
Proof.
  unfold isInfoEnabled, isDebugEnabled, isVerboseEnabled.
  destruct DO_LOG; [| destruct c; reflexivity].
  intros Hm Hi Hd Hv.
  destruct c; try discriminate Hm;
    cbv [call LOGE LOGW LOG LOGD LOGV isInfoEnabled isDebugEnabled isVerboseEnabled];
    rewrite ?Hi, ?Hd, ?Hv; reflexivity.
Qed.

Lemma macros_when_all_off (cs : list Call) (s : Logger) :
  forallb is_macro cs = true ->
  isInfoEnabled DO_LOG s = false ->
  isDebugEnabled DO_LOG s = false ->
  isVerboseEnabled DO_LOG s = false ->
  run DO_LOG cs s = s.
Proof.
  induction cs as [| c cs IH]; intros Hm Hi Hd Hv; cbn [run]; [reflexivity |].
  cbn [forallb] in Hm. apply andb_prop in Hm. destruct Hm as [Hc Hcs].
  rewrite (macro_after_disable c s Hc Hi Hd Hv). apply IH; assumption.
Qed.

(** X20. After [disable] no logging macro writes anything: whatever
    sequence of [LOGE], [LOGW], [LOG], [LOGD] and [LOGV] follows, both streams
    are as [disable] found them. *)
Theorem disable_silences_macros :
  forall (cs : list Call) (s : Logger),
    forallb is_macro cs = true ->
    stdout (run DO_LOG cs (disable DO_LOG s)) = stdout s /\
    stderr (run DO_LOG cs (disable DO_LOG s)) = stderr s.
Proof.
  intros cs s Hm.
  rewrite (macros_when_all_off cs (disable DO_LOG s) Hm).
  - unfold disable. destruct DO_LOG; split; reflexivity.
  - unfold isInfoEnabled, disable. destruct DO_LOG; reflexivity.
  - unfold isDebugEnabled, disable. destruct DO_LOG; reflexivity.
  - unfold isVerboseEnabled, disable. destruct DO_LOG; reflexivity.
Qed.

Lemma call_keeps_verbose_under_debug (c : Call) (s : Logger) :
  (isVerboseEnabled DO_LOG s = true -> isDebugEnabled DO_LOG s = true) ->
  isVerboseEnabled DO_LOG (call DO_LOG c s) = true ->
  isDebugEnabled DO_LOG (call DO_LOG c s) = true.
Proof.
  destruct s as [i d v out err].
  unfold isVerboseEnabled, isDebugEnabled.
  destruct DO_LOG; [| destruct c; intros _ H; discriminate H].
  cbn [_verbose _debug]. intros Hinv.
  destruct c;
    cbv [call LOGE LOGW LOG LOGD LOGV enableDebug enableVerbose disable
         isInfoEnabled isDebugEnabled isVerboseEnabled printf fprintf_stderr
         _info _debug _verbose stdout stderr];
    destruct i, d, v; cbn [_verbose _debug]; intros H;
    try reflexivity; try discriminate H; try (apply Hinv; reflexivity).
Qed.

(** X21. Verbose logging never runs without debug logging. If the switches
    start with debug on whenever verbose is on, they stay so after any
    sequence of calls: [enableVerbose] turns both on, [enableDebug] and the
    macros turn nothing off, and [disable] turns both off. *)
Theorem verbose_logging_implies_debug :
  forall (cs : list Call) (s : Logger),
    (isVerboseEnabled DO_LOG s = true -> isDebugEnabled DO_LOG s = true) ->
    isVerboseEnabled DO_LOG (run DO_LOG cs s) = true ->
    isDebugEnabled DO_LOG (run DO_LOG cs s) = true.
Proof.
  induction cs as [| c cs IH]; intros s Hinv; cbn [run].
  - exact Hinv.
  - apply IH. apply call_keeps_verbose_under_debug. exact Hinv.
Qed.

End LoggingSwitches.

Section LoggingExamples.

Import logging.
Import String.

(** Information logging off, then verbose logging asked for and one message
    of each kind. *)
Lemma info_logging_never_turned_on_witness :
  let s := mkLogger false false false [] [] in
  let cs := [CallEnableVerbose; CallLOGE "e"%string; CallLOG "i"%string;
             CallLOGV "v"%string] in
  isInfoEnabled true (run true cs s) = false /\
  stderr (run true cs s) = stderr s.
Proof.
  cbv zeta. apply (info_logging_never_turned_on true). reflexivity.
Defined.

Lemma disable_silences_macros_witness :
  let s := mkLogger true true true ["started"%string] [] in
  let cs := [CallLOGE "e"%string; CallLOGD "d"%string; CallLOGV "v"%string] in
  stdout (run true cs (disable true s)) = stdout s /\
  stderr (run true cs (disable true s)) = stderr s.
Proof.
  cbv zeta. apply (disable_silences_macros true). reflexivity.
Defined.

Lemma verbose_logging_implies_debug_witness :
  let s := mkLogger true false false [] [] in
  let cs := [CallLOGV "v"%string; CallEnableVerbose; CallLOGD "d"%string] in
  isDebugEnabled true (run true cs s) = true.
Proof.
  cbv zeta.
  apply (verbose_logging_implies_debug true); [discriminate | reflexivity].
Defined.

End LoggingExamples.
